(** * habitat-sim: the typed attribute store and the physics manager

    A shallow embedding of
      - [src/esp/assets/Attributes.cpp]  (the attribute store), and
      - the [PhysicsManager] implementation file (object registry,
        geometry validation, stepping, force and impulse delivery),
    together with the properties of the specification that concern them.

    Conventions.
      - C++ [int] is a [Z] in the range [int_min .. int_max]; signed
        overflow is undefined behaviour in C++ and is an explicit
        [Undefined] outcome here, as are null and dangling dereferences
        and out-of-range vector indexing.  A run of calls ends at the
        first call with undefined behaviour.
      - [float] and [double] values are the rationals they denote ([Q]).
        The embedded code stores, forwards and adds them; it never
        branches on a rounding-sensitive comparison.
      - [std::map] is a [gmap]; [m[k]] on an absent key default-inserts.
      - Of the log output only the error lines of the geometry validator
        are kept: they are the reason it gives for a rejection (and the
        lines of [debugSceneGraph], which has no other effect). *)

From Stdlib Require Import ZArith QArith Qround Lqa.
From stdpp Require Import base option list sorting gmap strings.

Local Open Scope Z_scope.

(** Magnum::Vector3 and Magnum::Vector3d: three scalars. *)
Definition Vector3 : Type := Q * Q * Q.

(** [std::map::count]: 0 or 1. *)
Definition map_count {K V} `{Countable K} (m : gmap K V) (key : K) : Z :=
  match m !! key with Some _ => 1 | None => 0 end.

(* ===================================================================== *)
(** ** esp::assets::Attributes *)
(* ===================================================================== *)

Module Attributes.

(** The enumerators used by [existsAs], [eraseAs] and [clearAs]. *)
Inductive DataType := DOUBLE | INT | STRING | MAGNUMVEC3 | VEC_STRINGS.

#[global] Instance DataType_eq_dec : EqDecision DataType.
Proof. solve_decision. Defined.

Record t := mk {
  doubleMap_     : gmap string Q;
  intMap_        : gmap string Z;
  stringMap_     : gmap string string;
  magnumVec3Map_ : gmap string Vector3;
  vecStringsMap_ : gmap string (list string)
}.

(** [Attributes::Attributes()] *)
Definition new : t := mk ∅ ∅ ∅ ∅ ∅.

(** [Attributes::exists] *)
Definition exists_ (a : t) (key : string) : bool :=
  if 0 <? map_count (doubleMap_ a) key then true
  else if 0 <? map_count (intMap_ a) key then true
  else if 0 <? map_count (stringMap_ a) key then true
  else if 0 <? map_count (magnumVec3Map_ a) key then true
  else if 0 <? map_count (vecStringsMap_ a) key then true
  else false.

(** [Attributes::existsAs] *)
Definition existsAs (a : t) (ty : DataType) (key : string) : bool :=
  if bool_decide (ty = DOUBLE) && (0 <? map_count (doubleMap_ a) key) then true
  else if bool_decide (ty = INT) && (0 <? map_count (intMap_ a) key) then true
  else if bool_decide (ty = STRING) && (0 <? map_count (stringMap_ a) key) then true
  else if bool_decide (ty = MAGNUMVEC3) && (0 <? map_count (magnumVec3Map_ a) key) then true
  else if bool_decide (ty = VEC_STRINGS) && (0 <? map_count (vecStringsMap_ a) key) then true
  else false.

(** [Attributes::count]: [numAttributes] starts at 0 and is incremented
    once per partition holding the key. *)
Definition count (a : t) (key : string) : Z :=
  let n := 0 in
  let n := if 0 <? map_count (doubleMap_ a) key then n + 1 else n in
  let n := if 0 <? map_count (intMap_ a) key then n + 1 else n in
  let n := if 0 <? map_count (stringMap_ a) key then n + 1 else n in
  let n := if 0 <? map_count (magnumVec3Map_ a) key then n + 1 else n in
  let n := if 0 <? map_count (vecStringsMap_ a) key then n + 1 else n in
  n.

(** The guarded erase [if (m.count(key) > 0) m.erase(key);]. *)
Definition erase_if_present {V} (m : gmap string V) (key : string) : gmap string V :=
  if 0 <? map_count m key then delete key m else m.

(** [Attributes::eraseAll] *)
Definition eraseAll (a : t) (key : string) : t :=
  mk (erase_if_present (doubleMap_ a) key)
     (erase_if_present (intMap_ a) key)
     (erase_if_present (stringMap_ a) key)
     (erase_if_present (magnumVec3Map_ a) key)
     (erase_if_present (vecStringsMap_ a) key).

(** [Attributes::eraseAs] *)
Definition eraseAs (a : t) (ty : DataType) (key : string) : t :=
  if bool_decide (ty = DOUBLE) then
    mk (erase_if_present (doubleMap_ a) key) (intMap_ a) (stringMap_ a)
       (magnumVec3Map_ a) (vecStringsMap_ a)
  else if bool_decide (ty = INT) then
    mk (doubleMap_ a) (erase_if_present (intMap_ a) key) (stringMap_ a)
       (magnumVec3Map_ a) (vecStringsMap_ a)
  else if bool_decide (ty = STRING) then
    mk (doubleMap_ a) (intMap_ a) (erase_if_present (stringMap_ a) key)
       (magnumVec3Map_ a) (vecStringsMap_ a)
  else if bool_decide (ty = MAGNUMVEC3) then
    mk (doubleMap_ a) (intMap_ a) (stringMap_ a)
       (erase_if_present (magnumVec3Map_ a) key) (vecStringsMap_ a)
  else if bool_decide (ty = VEC_STRINGS) then
    mk (doubleMap_ a) (intMap_ a) (stringMap_ a)
       (magnumVec3Map_ a) (erase_if_present (vecStringsMap_ a) key)
  else a.

(** [Attributes::clear] *)
Definition clear (a : t) : t := mk ∅ ∅ ∅ ∅ ∅.

(** [Attributes::clearAs] *)
Definition clearAs (a : t) (ty : DataType) : t :=
  if bool_decide (ty = DOUBLE) then
    mk ∅ (intMap_ a) (stringMap_ a) (magnumVec3Map_ a) (vecStringsMap_ a)
  else if bool_decide (ty = INT) then
    mk (doubleMap_ a) ∅ (stringMap_ a) (magnumVec3Map_ a) (vecStringsMap_ a)
  else if bool_decide (ty = STRING) then
    mk (doubleMap_ a) (intMap_ a) ∅ (magnumVec3Map_ a) (vecStringsMap_ a)
  else if bool_decide (ty = MAGNUMVEC3) then
    mk (doubleMap_ a) (intMap_ a) (stringMap_ a) ∅ (vecStringsMap_ a)
  else if bool_decide (ty = VEC_STRINGS) then
    mk (doubleMap_ a) (intMap_ a) (stringMap_ a) (magnumVec3Map_ a) ∅
  else a.

(** The getters use [std::map::at], which throws [std::out_of_range] on
    an absent key: [None] here. *)
Definition getDouble (a : t) (key : string) : option Q := doubleMap_ a !! key.
Definition getInt (a : t) (key : string) : option Z := intMap_ a !! key.
Definition getString (a : t) (key : string) : option string := stringMap_ a !! key.
Definition getMagnumVec3 (a : t) (key : string) : option Vector3 :=
  magnumVec3Map_ a !! key.
Definition getVecStrings (a : t) (key : string) : option (list string) :=
  vecStringsMap_ a !! key.

(** The setters are [map_[key] = val]. *)
Definition setDouble (a : t) (key : string) (val : Q) : t :=
  mk (<[key := val]> (doubleMap_ a)) (intMap_ a) (stringMap_ a)
     (magnumVec3Map_ a) (vecStringsMap_ a).

Definition setInt (a : t) (key : string) (val : Z) : t :=
  mk (doubleMap_ a) (<[key := val]> (intMap_ a)) (stringMap_ a)
     (magnumVec3Map_ a) (vecStringsMap_ a).

Definition setString (a : t) (key : string) (val : string) : t :=
  mk (doubleMap_ a) (intMap_ a) (<[key := val]> (stringMap_ a))
     (magnumVec3Map_ a) (vecStringsMap_ a).

Definition setMagnumVec3 (a : t) (key : string) (val : Vector3) : t :=
  mk (doubleMap_ a) (intMap_ a) (stringMap_ a)
     (<[key := val]> (magnumVec3Map_ a)) (vecStringsMap_ a).

Definition setVecStrings (a : t) (key : string) (val : list string) : t :=
  mk (doubleMap_ a) (intMap_ a) (stringMap_ a) (magnumVec3Map_ a)
     (<[key := val]> (vecStringsMap_ a)).

(** [vecStringsMap_[key].push_back(val)]: the subscript creates the empty
    vector when the key is absent. *)
Definition appendVecStrings (a : t) (key : string) (val : string) : t :=
  mk (doubleMap_ a) (intMap_ a) (stringMap_ a) (magnumVec3Map_ a)
     (<[key := default [] (vecStringsMap_ a !! key) ++ [val]]> (vecStringsMap_ a)).

(** How many of the partitions that [setDouble] and [setString] do not
    write (int, vector, string list) hold the key. *)
Definition othersHolding (a : t) (key : string) : Z :=
  map_count (intMap_ a) key + map_count (magnumVec3Map_ a) key
  + map_count (vecStringsMap_ a) key.

(** The five enumerators, in the order the member functions test them. *)
Definition allTypes : list DataType :=
  [DOUBLE; INT; STRING; MAGNUMVEC3; VEC_STRINGS].

(** Two stores hold the same under a key, partition by partition. *)
Definition agreeAt (a b : t) (key : string) : Prop :=
  doubleMap_ a !! key = doubleMap_ b !! key ∧
  intMap_ a !! key = intMap_ b !! key ∧
  stringMap_ a !! key = stringMap_ b !! key ∧
  magnumVec3Map_ a !! key = magnumVec3Map_ b !! key ∧
  vecStringsMap_ a !! key = vecStringsMap_ b !! key.

(** [PhysicsObjectAttributes::PhysicsObjectAttributes()]: the base
    constructor, then the twelve defaults in source order. *)
Definition PhysicsObjectAttributes_new : t :=
  let a := new in
  let a := setDouble a "mass" 1 in
  let a := setDouble a "margin" (1 # 100) in
  let a := setDouble a "scale" 1 in
  let a := setMagnumVec3 a "COM" (0, 0, 0)%Q in
  let a := setMagnumVec3 a "inertia" (0, 0, 0)%Q in
  let a := setDouble a "frictionCoefficient" (5 # 10) in
  let a := setDouble a "restitutionCoefficient" (6 # 10) in
  let a := setDouble a "linDamping" (2 # 10) in
  let a := setDouble a "angDamping" (2 # 10) in
  let a := setString a "originHandle" "" in
  let a := setString a "renderMeshHandle" "" in
  let a := setString a "collisionMeshHandle" "" in
  a.

(** [PhysicsSceneAttributes::PhysicsSceneAttributes()] *)
Definition PhysicsSceneAttributes_new : t :=
  let a := new in
  let a := setMagnumVec3 a "gravity" (0, - (98 # 10), 0)%Q in
  let a := setDouble a "frictionCoefficient" (4 # 10) in
  let a := setDouble a "restitutionCoefficient" (1 # 10) in
  let a := setString a "renderMeshHandle" "" in
  let a := setString a "collisionMeshHandle" "" in
  a.

(** [PhysicsManagerAttributes::PhysicsManagerAttributes()] *)
Definition PhysicsManagerAttributes_new : t :=
  let a := new in
  let a := setString a "simulator" "none" in
  let a := setDouble a "timestep" (1 # 100) in
  let a := setInt a "maxSubsteps" 10 in
  a.

(** The keys the three constructors set. *)
Definition objectKeys : list string :=
  ["mass"; "margin"; "scale"; "COM"; "inertia"; "frictionCoefficient";
   "restitutionCoefficient"; "linDamping"; "angDamping"; "originHandle";
   "renderMeshHandle"; "collisionMeshHandle"].

Definition sceneKeys : list string :=
  ["gravity"; "frictionCoefficient"; "restitutionCoefficient";
   "renderMeshHandle"; "collisionMeshHandle"].

Definition managerKeys : list string := ["simulator"; "timestep"; "maxSubsteps"].

End Attributes.

(* ===================================================================== *)
(** ** esp::physics::PhysicsManager *)
(* ===================================================================== *)

Module Physics.

(** *** Machine integers, pointers, undefined behaviour *)

Definition int_max : Z := 2147483647.
Definition int_min : Z := -2147483648.

(** An address of a live or dead heap object; a pointer is an address or
    [nullptr] ([None]). *)
Abbreviation addr := positive.
Abbreviation ptr := (option positive).

Inductive UB :=
  | NullDeref       (* [*p] or [p->f()] with [p == nullptr] *)
  | DanglingDeref   (* use of an address that holds no object *)
  | OutOfRange      (* [v[i]] with [i >= v.size()] *)
  | SignedOverflow. (* [int] arithmetic leaving [int_min .. int_max] *)

(** *** Mesh and asset data consumed by the manager *)

(** Magnum::MeshPrimitive. [OtherPrimitive n] stands for every value of
    the enumeration that the validator's [switch] sends to [default];
    [n] is the integer it prints. *)
Inductive MeshPrimitive :=
  | Points | Lines | LineLoop | LineStrip
  | Triangles | TriangleStrip | TriangleFan
  | OtherPrimitive (code : Z).

#[global] Instance MeshPrimitive_eq_dec : EqDecision MeshPrimitive.
Proof. solve_decision. Defined.

(** assets::CollisionMeshData: the fields the manager reads. *)
Record CollisionMeshData := {
  primitive : MeshPrimitive;
  positions : list Vector3;
  indices   : list Z
}.

(** assets::AssetType, as far as [initScene] and [initObject] tell its
    values apart (they only choose a log line by it). *)
Inductive AssetType := INSTANCE_MESH | FRL_INSTANCE_MESH | OTHER_ASSET.

Record AssetInfo := { type : AssetType; filepath : string }.

(** *** Diagnostics of the validator

    One [LOG(ERROR)] statement is one line; a line is the sequence of
    items streamed into it with [<<]. *)
Inductive LogItem := LStr (s : string) | LInt (n : Z).
Definition LogLine : Type := list LogItem.

Definition skipLine : LogLine := [LStr "Cannot load collision mesh, skipping"].

(** [PhysicsManager::isMeshPrimitiveValid]: the verdict and the error
    lines written.  The [if] on [Triangles] and the [switch] of the
    [else] branch are one [match] here. *)
Definition isMeshPrimitiveValid (meshData : CollisionMeshData)
  : bool * list LogLine :=
  match primitive meshData with
  | Triangles => (true, [])
  | Lines => (false, [[LStr "Invalid primitive: Lines"]; skipLine])
  | Points => (false, [[LStr "Invalid primitive: Points"]; skipLine])
  | LineLoop => (false, [[LStr "Invalid primitive Line loop"]; skipLine])
  | LineStrip => (false, [[LStr "Invalid primitive Line Strip"]; skipLine])
  | TriangleStrip =>
      (false, [[LStr "Invalid primitive Triangle Strip"]; skipLine])
  | TriangleFan =>
      (false, [[LStr "Invalid primitive Triangle Fan"]; skipLine])
  | OtherPrimitive n =>
      (false, [[LStr "Invalid primitive "; LInt n]; skipLine])
  end.

(** The loop
    [for (meshData : meshGroup) if (!isMeshPrimitiveValid(meshData)) return false;]
    [true] when the loop runs to its end. *)
Fixpoint allPrimitivesValid (meshGroup : list CollisionMeshData) : bool :=
  match meshGroup with
  | [] => true
  | meshData :: rest =>
      if negb (isMeshPrimitiveValid meshData).1 then false
      else allPrimitivesValid rest
  end.

(** *** The physics backend *)

(** Modelled from the spec: the collaborators the manager calls into --
    the backend physics world, the rigid body and the frame timer.
    [RigidObject], Bullet's [btDiscreteDynamicsWorld] and Magnum's
    [Timeline] are not under src/; section 6 of the specification gives
    the capability surface of the first two (construct a world, set
    gravity, build a body from a mesh group, step by dt with a sub-step
    cap, apply force or impulse, query activity).  The manager is
    embedded over every implementation of this interface. *)
Class Backend := {
  World : Type;
  RigidObject : Type;
  (** [std::make_shared<btDiscreteDynamicsWorld>(...)] *)
  newWorld : World;
  (** [bWorld_->setGravity(g)] *)
  setGravity : Vector3 → World → World;
  (** [physObject->initializeScene(info, mass, meshGroup, world)] *)
  initializeScene :
    AssetInfo → Q → list CollisionMeshData → World → RigidObject →
    bool * World * RigidObject;
  (** [physObject->initializeObject(info, mass, meshGroup, world)] *)
  initializeObject :
    AssetInfo → Q → list CollisionMeshData → World → RigidObject →
    bool * World * RigidObject;
  (** [bWorld_->stepSimulation(dt, maxSubSteps, fixedTimeStep)]; the
      world moves the bodies it holds, which live on the heap. *)
  stepSimulation :
    Q → Z → Q → World → gmap addr RigidObject →
    World * gmap addr RigidObject;
  (** [physObject->applyForce(force, relPos)] *)
  bodyApplyForce : Vector3 → Vector3 → RigidObject → RigidObject;
  (** [physObject->applyImpulse(impulse, relPos)] *)
  bodyApplyImpulse : Vector3 → Vector3 → RigidObject → RigidObject;
  (** [childNode->isActive()] *)
  isActive : RigidObject → bool;
  (** Magnum::Timeline, the frame timer, as far as the manager uses it:
      a value a newly constructed manager holds, [timeline_.start()],
      [timeline_.nextFrame()] (the duration it reads off the clock is an
      input) and [timeline_.previousFrameDuration()]. *)
  Timeline : Type;
  Timeline_new : Timeline;
  Timeline_start : Timeline → Timeline;
  Timeline_nextFrame : Q → Timeline → Timeline;
  previousFrameDuration : Timeline → Q
}.

(** The heap of rigid objects, which the caller allocates and the
    registry points into. *)
Abbreviation Heap := (gmap positive RigidObject).

Section Manager.
Context `{B : Backend}.

(** *** The manager's fields *)

Record PhysicsManager := mkPM {
  physicsNode     : ptr;
  dynamicObjects_ : gmap Z ptr;
  nextObjectID_   : Z;
  initialized_    : bool;
  do_profile_     : bool;
  total_time_     : Q;
  total_frames_   : Z;
  timeline_       : Timeline;
  maxSubSteps_    : Z;
  fixedTimeStep_  : Q;
  bWorld_         : option World
}.

(** The in-class initialisers of the header; [bWorld_] is an empty
    [shared_ptr] until [initPhysics]. *)
Definition PhysicsManager_new : PhysicsManager :=
  {| physicsNode := None;
     dynamicObjects_ := ∅;
     nextObjectID_ := 0;
     initialized_ := false;
     do_profile_ := false;
     total_time_ := 0%Q;
     total_frames_ := 0;
     timeline_ := Timeline_new;
     maxSubSteps_ := 10;
     fixedTimeStep_ := (1 # 240)%Q;
     bWorld_ := None |}.


Definition State : Type := PhysicsManager * Heap.

(** A call returns a value and the state it leaves, or runs into
    undefined behaviour in the state reached so far. *)
Inductive Result (A : Type) :=
  | Done (a : A) (s : State)
  | Undefined (u : UB) (s : State).
Arguments Done {A} a s.
Arguments Undefined {A} u s.

Definition state_of {A} (r : Result A) : State :=
  match r with Done _ s => s | Undefined _ s => s end.

(** [*p] for a [RigidObject* p]. *)
Definition deref (p : ptr) (h : Heap) : UB + (addr * RigidObject) :=
  match p with
  | None => inl NullDeref
  | Some a =>
      match h !! a with
      | None => inl DanglingDeref
      | Some o => inr (a, o)
      end
  end.

(** Field updates. *)
Definition with_registry (d : gmap Z ptr) (m : PhysicsManager) :=
  mkPM (physicsNode m) d (nextObjectID_ m) (initialized_ m) (do_profile_ m)
       (total_time_ m) (total_frames_ m) (timeline_ m) (maxSubSteps_ m)
       (fixedTimeStep_ m) (bWorld_ m).

Definition with_nextObjectID (n : Z) (m : PhysicsManager) :=
  mkPM (physicsNode m) (dynamicObjects_ m) n (initialized_ m) (do_profile_ m)
       (total_time_ m) (total_frames_ m) (timeline_ m) (maxSubSteps_ m)
       (fixedTimeStep_ m) (bWorld_ m).

Definition with_world (w : option World) (m : PhysicsManager) :=
  mkPM (physicsNode m) (dynamicObjects_ m) (nextObjectID_ m) (initialized_ m)
       (do_profile_ m) (total_time_ m) (total_frames_ m) (timeline_ m)
       (maxSubSteps_ m) (fixedTimeStep_ m) w.

Definition with_profile (time : Q) (frames : Z) (m : PhysicsManager) :=
  mkPM (physicsNode m) (dynamicObjects_ m) (nextObjectID_ m) (initialized_ m)
       (do_profile_ m) time frames (timeline_ m) (maxSubSteps_ m)
       (fixedTimeStep_ m) (bWorld_ m).

Definition with_do_profile (b : bool) (m : PhysicsManager) :=
  mkPM (physicsNode m) (dynamicObjects_ m) (nextObjectID_ m) (initialized_ m)
       b (total_time_ m) (total_frames_ m) (timeline_ m) (maxSubSteps_ m)
       (fixedTimeStep_ m) (bWorld_ m).

Definition with_timeline (tl : Timeline) (m : PhysicsManager) :=
  mkPM (physicsNode m) (dynamicObjects_ m) (nextObjectID_ m) (initialized_ m)
       (do_profile_ m) (total_time_ m) (total_frames_ m) tl (maxSubSteps_ m)
       (fixedTimeStep_ m) (bWorld_ m).

Definition with_fixedTimeStep (dt : Q) (m : PhysicsManager) :=
  mkPM (physicsNode m) (dynamicObjects_ m) (nextObjectID_ m) (initialized_ m)
       (do_profile_ m) (total_time_ m) (total_frames_ m) (timeline_ m)
       (maxSubSteps_ m) dt (bWorld_ m).

(** *** Initialisation *)

(** [PhysicsManager::initPhysics].  The [simulator] argument is unused by
    the body; the debug-renderer registration touches no manager field. *)
Definition initPhysics (node : ptr) (gravity : Vector3) (simulator : string)
    (do_profile : bool) (s : State) : Result bool :=
  let '(m, h) := s in
  Done true
    (mkPM node (dynamicObjects_ m) (nextObjectID_ m) true do_profile
          (total_time_ m) (total_frames_ m) (Timeline_start (timeline_ m))
          (maxSubSteps_ m) (fixedTimeStep_ m)
          (Some (setGravity gravity newWorld)),
     h).

(** *** Scene and object registration *)

(** [PhysicsManager::initScene].  [metaData] is unused by the body and
    omitted. *)
Definition initScene (info : AssetInfo) (meshGroup : list CollisionMeshData)
    (physObject : ptr) (s : State) : Result bool :=
  let '(m, h) := s in
  if negb (allPrimitivesValid meshGroup) then Done false s
  else
    let mass := 0%Q in
    match deref physObject h, bWorld_ m with
    | inl u, _ => Undefined u s
    | inr _, None => Undefined NullDeref s
    | inr (a, o), Some w =>
        let '(sceneSuccess, w', o') :=
          initializeScene info mass meshGroup w o in
        Done sceneSuccess (with_world (Some w') m, <[a := o']> h)
    end.

(** The mass [initObject] derives from the first primitive:
    [meshGroup[0].indices.size() * 0.001f]. *)
Definition objectMass (first : CollisionMeshData) : Q :=
  (inject_Z (Z.of_nat (length (indices first))) * (1 # 1000))%Q.

(** [PhysicsManager::initObject].  [metaData] is unused by the body and
    omitted.  The validation loop leaves with [return false], which the
    [int] return type turns into 0. *)
Definition initObject (info : AssetInfo) (meshGroup : list CollisionMeshData)
    (physObject : ptr) (s : State) : Result Z :=
  let '(m, h) := s in
  if negb (allPrimitivesValid meshGroup) then Done 0 s
  else
    match meshGroup with
    | [] => Undefined OutOfRange s          (* [meshGroup[0]] *)
    | first :: _ =>
        let mass := objectMass first in
        match deref physObject h, bWorld_ m with
        | inl u, _ => Undefined u s
        | inr _, None => Undefined NullDeref s
        | inr (a, o), Some w =>
            let '(objectSuccess, w', o') :=
              initializeObject info mass meshGroup w o in
            let m1 := with_world (Some w') m in
            let h1 := <[a := o']> h in
            if negb objectSuccess then Done (-1) (m1, h1)
            else
              let m2 :=
                with_registry
                  (<[nextObjectID_ m1 := physObject]> (dynamicObjects_ m1)) m1 in
              if bool_decide (nextObjectID_ m2 = int_max)
              then Undefined SignedOverflow (m2, h1)   (* [nextObjectID_ += 1] *)
              else
                let m3 := with_nextObjectID (nextObjectID_ m2 + 1) m2 in
                Done (nextObjectID_ m3 - 1) (m3, h1)
        end
    end.

(** What the backend answers when [initObject] gets as far as asking it
    to construct the body; [None] when the call does not reach it. *)
Definition backendAccepts (info : AssetInfo)
    (meshGroup : list CollisionMeshData) (physObject : ptr) (s : State)
  : option bool :=
  match meshGroup, deref physObject s.2, bWorld_ s.1 with
  | first :: _, inr (_, o), Some w =>
      Some (initializeObject info (objectMass first) meshGroup w o).1.1
  | _, _, _ => None
  end.

(** How [removeObject] ends (section 4.5 of the specification). *)
Inductive RemoveStatus := Removed | UnknownObjectId.

(** Modelled from the spec: [removeObject], which the viewer calls but
    whose definition is not under src/.  Section 4.3: "detaches and
    destroys the body, invalidating the identity for future lookups (but
    the counter is NOT rolled back)"; section 4.5: "fails with
    UnknownObjectId if not found". *)
Definition removeObject (objectID : Z) (s : State) : Result RemoveStatus :=
  let '(m, h) := s in
  match dynamicObjects_ m !! objectID with
  | None => Done UnknownObjectId s
  | Some p =>
      Done Removed
        (with_registry (delete objectID (dynamicObjects_ m)) m,
         match p with Some a => delete a h | None => h end)
  end.

(** *** Interaction *)

(** [dynamicObjects_[objectID]]: [std::map::operator[]] inserts a
    value-initialised (null) pointer under an absent key and returns it. *)
Definition subscript (objectID : Z) (m : PhysicsManager) : ptr * PhysicsManager :=
  match dynamicObjects_ m !! objectID with
  | Some p => (p, m)
  | None => (None, with_registry (<[objectID := None]> (dynamicObjects_ m)) m)
  end.

(** [PhysicsManager::applyForce] *)
Definition applyForce (objectID : Z) (force relPos : Vector3) (s : State)
  : Result unit :=
  let '(m, h) := s in
  let '(physObject, m1) := subscript objectID m in
  match deref physObject h with
  | inl u => Undefined u (m1, h)
  | inr (a, o) => Done tt (m1, <[a := bodyApplyForce force relPos o]> h)
  end.

(** [PhysicsManager::applyImpulse] *)
Definition applyImpulse (objectID : Z) (impulse relPos : Vector3) (s : State)
  : Result unit :=
  let '(m, h) := s in
  let '(physObject, m1) := subscript objectID m in
  match deref physObject h with
  | inl u => Undefined u (m1, h)
  | inr (a, o) => Done tt (m1, <[a := bodyApplyImpulse impulse relPos o]> h)
  end.

(** *** Stepping *)

(** [PhysicsManager::stepPhysics].  [elapsed] is the wall-clock time the
    two [system_clock::now()] readings measure around the backend step.
    The log lines and the unused local [numObjects] leave no trace. *)
Definition stepPhysics (elapsed : Q) (s : State) : Result unit :=
  let '(m, h) := s in
  if negb (initialized_ m) then Done tt s
  else
    match bWorld_ m with
    | None => Undefined NullDeref s
    | Some w =>
        let '(w', h') :=
          stepSimulation (previousFrameDuration (timeline_ m))
                         (maxSubSteps_ m) (fixedTimeStep_ m) w h in
        let m1 := with_world (Some w') m in
        if do_profile_ m1 then
          if bool_decide (total_frames_ m1 = int_max)
          then Undefined SignedOverflow (m1, h')     (* [total_frames_ += 1] *)
          else
            Done tt (with_profile (total_time_ m1 + elapsed)%Q
                                  (total_frames_ m1 + 1) m1, h')
        else Done tt (m1, h')
    end.

(** The census loop of [checkActiveObjects] over the children of
    [physicsNode]: a child is [Some a] when the [dynamic_cast] to
    [RigidObject*] succeeds (the object at [a]) and [None] otherwise.
    Returns [(numActive, numTotal)]. *)
Fixpoint census (h : Heap) (children : list ptr) (numActive numTotal : Z)
  : UB + (Z * Z) :=
  match children with
  | [] => inr (numActive, numTotal)
  | None :: rest => census h rest numActive numTotal
  | Some a :: rest =>
      match h !! a with
      | None => inl DanglingDeref
      | Some o =>
          if bool_decide (numTotal = int_max) then inl SignedOverflow
          else
            census h rest
              (if isActive o then numActive + 1 else numActive)
              (numTotal + 1)
      end
  end.

(** [PhysicsManager::checkActiveObjects]; [children] is what
    [physicsNode->children()] yields.  The two counters are locals that
    are never stored. *)
Definition checkActiveObjects (children : list ptr) (s : State) : Result unit :=
  let '(m, h) := s in
  match physicsNode m with
  | None => Done tt s
  | Some _ =>
      if negb (initialized_ m) then Done tt s
      else
        match census h children 0 0 with
        | inl u => Undefined u s
        | inr _ => Done tt s
        end
  end.

(** [PhysicsManager::nextFrame]; [measured] is the duration the timeline
    reads off the clock. *)
Definition nextFrame (measured : Q) (children : list ptr) (s : State)
  : Result unit :=
  let '(m, h) := s in
  checkActiveObjects children
    (with_timeline (Timeline_nextFrame measured (timeline_ m)) m, h).

(** [PhysicsManager::setTimestep] *)
Definition setTimestep (dt : Q) (s : State) : Result unit :=
  let '(m, h) := s in Done tt (with_fixedTimeStep dt m, h).

(** *** Call sequences *)

(** The calls a client can make, with the inputs the environment
    supplies (clock readings, scene-graph children).  [CNew] is the
    caller's own [new RigidObject] at a fresh address. *)
Inductive Call :=
  | CNew (a : addr) (o : RigidObject)
  | CInitPhysics (node : ptr) (gravity : Vector3) (simulator : string)
                 (do_profile : bool)
  | CInitScene (info : AssetInfo) (meshGroup : list CollisionMeshData)
               (physObject : ptr)
  | CInitObject (info : AssetInfo) (meshGroup : list CollisionMeshData)
                (physObject : ptr)
  | CRemoveObject (objectID : Z)
  | CApplyForce (objectID : Z) (force relPos : Vector3)
  | CApplyImpulse (objectID : Z) (impulse relPos : Vector3)
  | CStepPhysics (elapsed : Q)
  | CNextFrame (measured : Q) (children : list ptr)
  | CSetTimestep (dt : Q).

Inductive Ret :=
  | RVoid
  | RBool (b : bool)
  | RInt (n : Z)
  | RStatus (st : RemoveStatus).

Definition ret {A} (f : A → Ret) (r : Result A) : Result Ret :=
  match r with
  | Done a s => Done (f a) s
  | Undefined u s => Undefined u s
  end.

Definition perform (c : Call) (s : State) : Result Ret :=
  match c with
  | CNew a o =>
      match s.2 !! a with
      | None => Done RVoid (s.1, <[a := o]> s.2)
      | Some _ => Done RVoid s
      end
  | CInitPhysics node gravity simulator do_profile =>
      ret RBool (initPhysics node gravity simulator do_profile s)
  | CInitScene info meshGroup physObject =>
      ret RBool (initScene info meshGroup physObject s)
  | CInitObject info meshGroup physObject =>
      ret RInt (initObject info meshGroup physObject s)
  | CRemoveObject objectID => ret RStatus (removeObject objectID s)
  | CApplyForce objectID force relPos =>
      ret (λ _, RVoid) (applyForce objectID force relPos s)
  | CApplyImpulse objectID impulse relPos =>
      ret (λ _, RVoid) (applyImpulse objectID impulse relPos s)
  | CStepPhysics elapsed => ret (λ _, RVoid) (stepPhysics elapsed s)
  | CNextFrame measured children =>
      ret (λ _, RVoid) (nextFrame measured children s)
  | CSetTimestep dt => ret (λ _, RVoid) (setTimestep dt s)
  end.

(** One observed call: the state it started in, the call, its outcome. *)
Record Obs := { before : State; call : Call; outcome : Result Ret }.

(** Runs the calls in order; stops after a call with undefined
    behaviour. *)
Fixpoint exec (s : State) (calls : list Call) : list Obs :=
  match calls with
  | [] => []
  | c :: rest =>
      let r := perform c s in
      {| before := s; call := c; outcome := r |} ::
      match r with
      | Done _ s' => exec s' rest
      | Undefined _ _ => []
      end
  end.

(** A call registered an object when it consumed an identity: the
    counter moved. *)
Definition registered (o : Obs) : bool :=
  bool_decide (nextObjectID_ (state_of (outcome o)).1 ≠ nextObjectID_ (before o).1).

(** The identity a call issued: the value returned by an [initObject]
    that registered its object. *)
Definition issuedBy (o : Obs) : option Z :=
  match call o, outcome o with
  | CInitObject _ _ _, Done (RInt objectID) _ =>
      if registered o then Some objectID else None
  | _, _ => None
  end.

Definition issued (trace : list Obs) : list Z := omap issuedBy trace.

(** A call that leaves the identity counter where it was, however it
    ends. *)
Definition keepsCounter {A} (f : State → Result A) : Prop :=
  ∀ s, nextObjectID_ (state_of (f s)).1 = nextObjectID_ s.1.

(** The frame loop of the viewer's draw event: [stepPhysics] then
    [nextFrame], once per frame. *)
Record Frame := {
  elapsed : Q;            (* wall-clock time of the backend step *)
  measured : Q;           (* duration the timeline measures for the frame *)
  children : list ptr     (* children of [physicsNode] at the census *)
}.

Fixpoint runFrames (s : State) (frames : list Frame) : Result unit :=
  match frames with
  | [] => Done tt s
  | f :: rest =>
      match stepPhysics (elapsed f) s with
      | Undefined u s' => Undefined u s'
      | Done _ s1 =>
          match nextFrame (measured f) (children f) s1 with
          | Undefined u s' => Undefined u s'
          | Done _ s2 => runFrames s2 rest
          end
      end
  end.

(** Two frames that differ at most in the wall-clock time measured
    around the backend step. *)
Definition sameInputs (f1 f2 : Frame) : Prop :=
  measured f1 = measured f2 ∧ children f1 = children f2.

(** What a run of the simulation yields apart from the profiling
    statistics: every manager field but [do_profile_], [total_time_] and
    [total_frames_], and the heap of bodies. *)
Definition simulationView (s : State) :=
  (physicsNode s.1, dynamicObjects_ s.1, nextObjectID_ s.1, initialized_ s.1,
   timeline_ s.1, maxSubSteps_ s.1, fixedTimeStep_ s.1, bWorld_ s.1, s.2).

Definition resultView {A} (r : Result A) :=
  match r with
  | Done _ s => (None, simulationView s)
  | Undefined u s => (Some u, simulationView s)
  end.

End Manager.

Arguments Done {B A} a s.
Arguments Undefined {B A} u s.

(** *** Further members and their helpers *)

(** The validation loop of [initScene] and [initObject] with the error
    lines it writes: it stops at the first rejected primitive. *)
Fixpoint validateGroup (meshGroup : list CollisionMeshData)
  : bool * list LogLine :=
  match meshGroup with
  | [] => (true, [])
  | meshData :: rest =>
      let '(ok, lines) := isMeshPrimitiveValid meshData in
      if negb ok then (false, lines)
      else let '(ok', lines') := validateGroup rest in (ok', lines ++ lines')
  end.

(** The scene graph [debugSceneGraph] walks: a node and its children. *)
#[local] Unset Elimination Schemes.
Inductive SceneTree := SceneNode (kids : list SceneTree).
#[local] Set Elimination Schemes.

Definition leafLine : LogLine := [LStr "SCENE NODE is leaf node."].

(** [PhysicsManager::debugSceneGraph]: the [LOG(INFO)] lines written.
    It reads no field of the manager. *)
Fixpoint debugSceneGraph (root : SceneTree) : list LogLine :=
  match root with
  | SceneNode kids =>
      match kids with
      | [] => [leafLine]
      | _ :: _ => flat_map debugSceneGraph kids
      end
  end.

(** The number of leaves of a scene graph. *)
Fixpoint leaves (root : SceneTree) : nat :=
  match root with
  | SceneNode kids =>
      match kids with
      | [] => 1%nat
      | _ :: _ => list_sum (map leaves kids)
      end
  end.

Section ManagerMore.
Context `{B : Backend}.

(** The calls whose definition is under src/: all but [removeObject]. *)
Definition fromSource (c : Call) : bool :=
  match c with CRemoveObject _ => false | _ => true end.

(** What holds of the manager in every state a run reaches: the two
    [int] counters are within range, the registry holds exactly the
    identities below the counter, none of them bound to a null pointer,
    and the world exists exactly when [initialized_] is set. *)
Definition wellFormed (s : State) : Prop :=
  0 ≤ nextObjectID_ s.1 ≤ int_max ∧
  0 ≤ total_frames_ s.1 ≤ int_max ∧
  (∀ objectID, is_Some (dynamicObjects_ s.1 !! objectID) ↔
               0 ≤ objectID < nextObjectID_ s.1) ∧
  (∀ objectID, dynamicObjects_ s.1 !! objectID ≠ Some None) ∧
  (initialized_ s.1 = true ↔ is_Some (bWorld_ s.1)).

(** The children of [physicsNode] that are rigid objects, and those
    among them the backend reports active. *)
Definition rigidChildren (kids : list ptr) : list positive := omap id kids.

Definition activeChildren (h : Heap) (kids : list ptr) : list positive :=
  List.filter (λ a, match h !! a with Some o => isActive o | None => false end)
              (rigidChildren kids).


End ManagerMore.

(** *** A recording backend *)

(** Modelled from the spec: a test double of the backend (section 8:
    "observable via a test double backend").  The world counts the
    bodies added, the fixed sub-steps run and the simulated time they
    cover; a body records whether its shape can be built and the forces
    and impulses it has received. *)
Module Double.

Record DWorld := {
  gravity   : Vector3;
  numBodies : Z;
  subSteps  : Z;
  simTime   : Q
}.

(** The timer: [start] resets the last duration; [nextFrame] records
    the measured one when the timer runs. *)
Record DTimeline := { running : bool; lastDuration : Q }.

Record DBody := {
  constructible : bool;
  inWorld       : bool;
  mass_         : Q;
  forces        : list (Vector3 * Vector3);
  impulses      : list (Vector3 * Vector3)
}.

(** Modelled from the spec: body construction, which succeeds on the
    bodies marked constructible and otherwise changes nothing (section
    4.3: "on backend construction failure ... performs no partial
    registration"). *)
Definition build (mass : Q) (w : DWorld) (o : DBody) : bool * DWorld * DBody :=
  if constructible o then
    (true,
     {| gravity := gravity w; numBodies := numBodies w + 1;
        subSteps := subSteps w; simTime := simTime w |},
     {| constructible := true; inWorld := true; mass_ := mass;
        forces := forces o; impulses := impulses o |})
  else (false, w, o).

(** Modelled from the spec: the number of fixed sub-steps the backend
    world's [stepSimulation] runs, which is not under src/.  Section 4.4:
    the world advances "by dt using at most maxSubSteps internal
    sub-steps of size fixedTimeStep"; time beyond
    [maxSubSteps * fixedTimeStep] is dropped. *)
Definition numSubSteps (dt : Q) (maxSubSteps : Z) (fixedTimeStep : Q) : Z :=
  if Qle_bool fixedTimeStep 0 then 0
  else Z.max 0 (Z.min maxSubSteps (Qfloor (dt / fixedTimeStep))).

(** Modelled from the spec: the backend world's [stepSimulation] on the
    recording world; each sub-step covers [fixedTimeStep] of simulated
    time. *)
Definition step (dt : Q) (maxSubSteps : Z) (fixedTimeStep : Q) (w : DWorld)
  : DWorld :=
  let n := numSubSteps dt maxSubSteps fixedTimeStep in
  {| gravity := gravity w; numBodies := numBodies w;
     subSteps := subSteps w + n;
     simTime := (simTime w + inject_Z n * fixedTimeStep)%Q |}.

(** Modelled from the spec: the recording implementation of the
    collaborators (section 6). *)
#[global] Instance backend : Backend := {|
  World := DWorld;
  RigidObject := DBody;
  newWorld := {| gravity := (0, 0, 0)%Q; numBodies := 0; subSteps := 0;
                 simTime := 0%Q |};
  setGravity g w :=
    {| gravity := g; numBodies := numBodies w; subSteps := subSteps w;
       simTime := simTime w |};
  initializeScene _ mass _ w o := build mass w o;
  initializeObject _ mass _ w o := build mass w o;
  stepSimulation dt maxSubSteps fixedTimeStep w h :=
    (step dt maxSubSteps fixedTimeStep w, h);
  bodyApplyForce force relPos o :=
    {| constructible := constructible o; inWorld := inWorld o;
       mass_ := mass_ o; forces := (force, relPos) :: forces o;
       impulses := impulses o |};
  bodyApplyImpulse impulse relPos o :=
    {| constructible := constructible o; inWorld := inWorld o;
       mass_ := mass_ o; forces := forces o;
       impulses := (impulse, relPos) :: impulses o |};
  isActive o := inWorld o;
  Timeline := DTimeline;
  Timeline_new := {| running := false; lastDuration := 0%Q |};
  Timeline_start tl := {| running := true; lastDuration := 0%Q |};
  Timeline_nextFrame measured tl :=
    if running tl then {| running := true; lastDuration := measured |} else tl;
  previousFrameDuration tl := lastDuration tl
|}.

(** Sample inputs. *)
Definition body (ok : bool) : DBody :=
  {| constructible := ok; inWorld := false; mass_ := 0%Q;
     forces := []; impulses := [] |}.

Definition mesh (p : MeshPrimitive) : CollisionMeshData :=
  {| primitive := p; positions := []; indices := [0; 1; 2] |}.

Definition glb : AssetInfo := {| type := OTHER_ASSET; filepath := "cube.glb" |}.

Definition down : Vector3 := (0, - (98 # 10), 0)%Q.

Definition fresh : State := (PhysicsManager_new, ∅).

(** A manager after [initPhysics], with two unregistered bodies on the
    heap: one the backend can build (address 1) and one it cannot
    (address 2). *)
Definition ready : State :=
  state_of (initPhysics None down "bullet" false
              (PhysicsManager_new,
               <[ 1%positive := body true ]> {[ 2%positive := body false ]})).

(** [ready] after a frame that lasted one second. *)
Definition afterLongFrame : State :=
  state_of (nextFrame 1%Q [] ready).

(** [ready] with the body at address 1 registered (as identity 0). *)
Definition populated : State :=
  state_of (initObject glb [mesh Triangles] (Some 1%positive) ready).

(** A run with two registrations and a removal between them. *)
Definition sampleCalls : list Call :=
  [CNew 1%positive (body true); CNew 2%positive (body true);
   CInitPhysics None down "bullet" false;
   CInitObject glb [mesh Triangles] (Some 1%positive);
   CRemoveObject 0;
   CInitObject glb [mesh Triangles] (Some 2%positive)].

(** Two runs of the same two frames that measure different wall-clock
    times for the backend step. *)
Definition profiledFrames : list Frame :=
  [ {| elapsed := 1 # 100; measured := 1 # 60; children := [Some 1%positive] |};
    {| elapsed := 2 # 100; measured := 1; children := [] |} ].

Definition plainFrames : list Frame :=
  [ {| elapsed := 3 # 100; measured := 1 # 60; children := [Some 1%positive] |};
    {| elapsed := 1 # 100; measured := 1; children := [] |} ].

(** A run of calls from the source only: two registrations, a frame and
    a force on the first object. *)
Definition sourceCalls : list Call :=
  [CNew 1%positive (body true); CNew 2%positive (body true);
   CInitPhysics None down "bullet" true;
   CInitObject glb [mesh Triangles] (Some 1%positive);
   CInitObject glb [mesh Lines] (Some 2%positive);
   CInitObject glb [mesh Triangles] (Some 2%positive);
   CStepPhysics (1 # 100);
   CNextFrame (1 # 60) [Some 1%positive; None];
   CApplyForce 0 down down].

End Double.

End Physics.

(* ===================================================================== *)
(** * Properties *)
(* ===================================================================== *)

(** ** The attribute store *)

Section AttributesFacts.
Import Attributes.

Lemma map_count_insert {V} (m : gmap string V) k v : map_count (<[k := v]> m) k = 1.
Proof. unfold map_count. by rewrite lookup_insert_eq. Qed.

Lemma map_count_delete {V} (m : gmap string V) k : map_count (delete k m) k = 0.
Proof. unfold map_count. by rewrite lookup_delete_eq. Qed.

Lemma map_count_range {V} (m : gmap string V) k :
  map_count m k = 0 ∨ map_count m k = 1.
Proof. unfold map_count. destruct (m !! k); auto. Qed.

Lemma erase_if_present_delete {V} (m : gmap string V) k :
  erase_if_present m k = delete k m.
Proof.
  unfold erase_if_present, map_count.
  destruct (m !! k) eqn:E; simpl; [done|].
  symmetry. by apply delete_id.
Qed.

(** The partitions after [setDouble] then [setString] on one key. *)
Lemma set_double_string_partitions (a : t) (x : string) (v : Q) (s : string) :
  let a2 := setString (setDouble a x v) x s in
  doubleMap_ a2 = <[x := v]> (doubleMap_ a) ∧
  intMap_ a2 = intMap_ a ∧
  stringMap_ a2 = <[x := s]> (stringMap_ a) ∧
  magnumVec3Map_ a2 = magnumVec3Map_ a ∧
  vecStringsMap_ a2 = vecStringsMap_ a.
Proof. done. Qed.

Lemma eraseAs_double (a : t) (x : string) :
  eraseAs a DOUBLE x =
  mk (delete x (doubleMap_ a)) (intMap_ a) (stringMap_ a)
     (magnumVec3Map_ a) (vecStringsMap_ a).
Proof. unfold eraseAs. cbn. by rewrite erase_if_present_delete. Qed.

(** C8, as stated, on a store that already holds the key as an int:
    after [setDouble] and [setString] three partitions hold it. *)
Lemma count_three_when_int_present :
  let a := setString (setDouble (setInt new "x" 7) "x" 1%Q) "x" "a" in
  existsAs a DOUBLE "x" = true ∧ existsAs a STRING "x" = true ∧
  count a "x" = 3 ∧ count a "x" ≠ 2.
Proof. vm_compute. repeat split; congruence. Qed.

(** C8 (amended): for every store [a], key [x] and values [v], [s]:
    after [setDouble x v] then [setString x s], [x] exists as a double and
    as a string, and [count x] is 2 plus the number of the other three
    partitions that hold [x] (so exactly 2 when none does); a following
    [eraseAs DOUBLE x] deletes [x] from the double partition only and
    leaves the four other partitions as they were. *)
Theorem partition_independence (a : t) (x : string) (v : Q) (s : string) :
  let a2 := setString (setDouble a x v) x s in
  let a3 := eraseAs a2 DOUBLE x in
  existsAs a2 DOUBLE x = true ∧
  existsAs a2 STRING x = true ∧
  count a2 x = 2 + othersHolding a x ∧
  existsAs a3 DOUBLE x = false ∧
  existsAs a3 STRING x = true ∧
  getString a3 x = Some s ∧
  doubleMap_ a3 = delete x (doubleMap_ a2) ∧
  intMap_ a3 = intMap_ a2 ∧
  stringMap_ a3 = stringMap_ a2 ∧
  magnumVec3Map_ a3 = magnumVec3Map_ a2 ∧
  vecStringsMap_ a3 = vecStringsMap_ a2 ∧
  count a3 x = 1 + othersHolding a x.
Proof.
  cbn zeta. rewrite eraseAs_double.
  destruct (set_double_string_partitions a x v s) as (Ed & Ei & Es & Ev & El).
  cbn zeta in *.
  unfold existsAs, count, othersHolding, getString.
  cbn [doubleMap_ intMap_ stringMap_ magnumVec3Map_ vecStringsMap_].
  rewrite Ed, Ei, Es, Ev, El.
  rewrite !map_count_insert, !map_count_delete, lookup_insert_eq.
  destruct (map_count_range (intMap_ a) x) as [-> | ->],
           (map_count_range (magnumVec3Map_ a) x) as [-> | ->],
           (map_count_range (vecStringsMap_ a) x) as [-> | ->];
    cbn; repeat split; reflexivity.
Qed.

End AttributesFacts.

(** ** The physics manager *)

Import Physics.

Ltac unfold_call :=
  unfold initPhysics, initScene, initObject, removeObject, applyForce,
    applyImpulse, stepPhysics, nextFrame, checkActiveObjects, setTimestep,
    subscript.

Ltac by_cases :=
  intros; unfold_call; repeat (case_match; simplify_eq/=); try done.

Section PhysicsFacts.
Context `{B : Backend}.

(** *** Geometry validation *)

Lemma allPrimitivesValid_true (meshGroup : list CollisionMeshData) :
  allPrimitivesValid meshGroup = true ↔
  Forall (λ meshData, (isMeshPrimitiveValid meshData).1 = true) meshGroup.
Proof.
  induction meshGroup as [|meshData rest IH]; cbn.
  - split; [constructor | done].
  - destruct (isMeshPrimitiveValid meshData).1 eqn:E; cbn.
    + rewrite IH. split; [by constructor | by inversion 1].
    + split; [done | inversion 1; congruence].
Qed.

(** The loop fails exactly when some primitive of the group is rejected. *)
Lemma allPrimitivesValid_false (meshGroup : list CollisionMeshData) :
  allPrimitivesValid meshGroup = false ↔
  Exists (λ meshData, (isMeshPrimitiveValid meshData).1 = false) meshGroup.
Proof.
  induction meshGroup as [|meshData rest IH]; cbn.
  - split; [done | inversion 1].
  - destruct (isMeshPrimitiveValid meshData).1 eqn:E; cbn.
    + rewrite IH. split; [by right | inversion 1; [congruence | done]].
    + split; [by left | done].
Qed.

(** C4: the validator accepts a primitive exactly when its topology is
    the triangle list; points, lines, line loop, line strip, triangle
    strip and triangle fan are each rejected; and the error lines of a
    rejected primitive tell its topology: two rejected primitives with
    the same lines have the same topology. *)
Theorem triangle_only_validation :
  (∀ meshData,
     (isMeshPrimitiveValid meshData).1 =
     bool_decide (primitive meshData = Triangles)) ∧
  Forall (λ p, ∀ pos idx,
            (isMeshPrimitiveValid
               {| primitive := p; positions := pos; indices := idx |}).1 = false)
         [Points; Lines; LineLoop; LineStrip; TriangleStrip; TriangleFan] ∧
  (∀ m1 m2,
     (isMeshPrimitiveValid m1).1 = false →
     (isMeshPrimitiveValid m2).1 = false →
     (isMeshPrimitiveValid m1).2 = (isMeshPrimitiveValid m2).2 →
     primitive m1 = primitive m2) ∧
  (∀ meshData,
     (isMeshPrimitiveValid meshData).1 = false →
     (isMeshPrimitiveValid meshData).2 ≠ []).
Proof.
  split; [|split; [|split]].
  - intros [p pos idx]. by destruct p.
  - repeat constructor.
  - intros [p1 ? ?] [p2 ? ?]. unfold isMeshPrimitiveValid; cbn.
    destruct p1, p2; cbn; intros; simplify_eq; done.
  - intros [p ? ?]. unfold isMeshPrimitiveValid; cbn. by destruct p.
Qed.

Lemma triangle_only_validation_witness :
  primitive (Double.mesh Lines) = primitive (Double.mesh Lines) ∧
  (isMeshPrimitiveValid (Double.mesh Lines)).2 ≠ [].
Proof.
  destruct triangle_only_validation as (_ & _ & Hinj & Hne).
  split.
  - apply Hinj; reflexivity.
  - apply Hne. reflexivity.
Defined.

(** *** Registration *)

(** A group with a rejected primitive commits nothing: both calls hand
    back the state they were given. *)
Lemma rejected_group_commits_nothing info meshGroup physObject (s : State) :
  allPrimitivesValid meshGroup = false →
  initScene info meshGroup physObject s = Done false s ∧
  initObject info meshGroup physObject s = Done 0 s.
Proof.
  intros Hv. destruct s as [m h]. unfold initScene, initObject.
  by rewrite Hv.
Qed.

(** Every way [initObject] can end. *)
Lemma initObject_outcome info meshGroup p (s : State) :
  match initObject info meshGroup p s with
  | Done objectID s' =>
      (s' = s ∧ objectID = 0 ∧ allPrimitivesValid meshGroup = false) ∨
      (objectID = -1 ∧ allPrimitivesValid meshGroup = true ∧
       backendAccepts info meshGroup p s = Some false ∧
       dynamicObjects_ s'.1 = dynamicObjects_ s.1 ∧
       nextObjectID_ s'.1 = nextObjectID_ s.1) ∨
      (objectID = nextObjectID_ s.1 ∧ allPrimitivesValid meshGroup = true ∧
       backendAccepts info meshGroup p s = Some true ∧
       nextObjectID_ s.1 ≠ int_max ∧
       dynamicObjects_ s'.1 = <[objectID := p]> (dynamicObjects_ s.1) ∧
       nextObjectID_ s'.1 = nextObjectID_ s.1 + 1)
  | Undefined u s' => nextObjectID_ s'.1 = nextObjectID_ s.1
  end.
Proof.
  destruct s as [m h]. unfold initObject, backendAccepts.
  destruct (allPrimitivesValid meshGroup) eqn:Hv; cbn [negb]; [|left; done].
  destruct meshGroup as [|first rest]; [done|].
  cbn [fst snd].
  destruct (deref p h) as [u|[a o]]; [done|].
  destruct (bWorld_ m) as [w|]; [|done].
  destruct (initializeObject _ _ _ _ _) as [[ok w'] o'].
  destruct ok; cbn [negb].
  - cbn. case_bool_decide as Hmax; cbn.
    + done.
    + right; right. rewrite Z.add_simpl_r. done.
  - right; left. done.
Qed.

(** A successful registration, told by its cause: the group passes
    validation, the backend builds the body, and the counter has room. *)
Lemma initObject_success info meshGroup p (s : State) :
  allPrimitivesValid meshGroup = true →
  backendAccepts info meshGroup p s = Some true →
  nextObjectID_ s.1 ≠ int_max →
  ∃ s', initObject info meshGroup p s = Done (nextObjectID_ s.1) s' ∧
        dynamicObjects_ s'.1 = <[nextObjectID_ s.1 := p]> (dynamicObjects_ s.1) ∧
        nextObjectID_ s'.1 = nextObjectID_ s.1 + 1.
Proof.
  destruct s as [m h]. unfold initObject, backendAccepts. intros -> Hb Hmax.
  cbn [negb fst snd] in *.
  destruct meshGroup as [|first rest]; [done|].
  destruct (deref p h) as [u|[a o]]; [done|].
  destruct (bWorld_ m) as [w|]; [|done].
  destruct (initializeObject _ _ _ _ _) as [[ok w'] o'].
  cbn in Hb. simplify_eq. cbn.
  rewrite (bool_decide_false _ Hmax), Z.add_simpl_r. eauto.
Qed.

Lemma state_of_ret {A} (f : A → Ret) (r : Result A) :
  state_of (ret f r) = state_of r.
Proof. by destruct r. Qed.

(** Only [initObject] moves the identity counter. *)
Lemma initPhysics_counter node g sim prof :
  keepsCounter (initPhysics node g sim prof).
Proof. intros [m h]. by_cases. Qed.

Lemma initScene_counter info mg p : keepsCounter (initScene info mg p).
Proof. intros [m h]. by_cases. Qed.

Lemma removeObject_counter id : keepsCounter (removeObject id).
Proof. intros [m h]. by_cases. Qed.

Lemma applyForce_counter id f r : keepsCounter (applyForce id f r).
Proof. intros [m h]. by_cases. Qed.

Lemma applyImpulse_counter id f r : keepsCounter (applyImpulse id f r).
Proof. intros [m h]. by_cases. Qed.

Lemma stepPhysics_counter el : keepsCounter (stepPhysics el).
Proof. intros [m h]. by_cases. Qed.

Lemma nextFrame_counter d ch : keepsCounter (nextFrame d ch).
Proof. intros [m h]. by_cases. Qed.

Lemma setTimestep_counter dt : keepsCounter (setTimestep dt).
Proof. intros [m h]. by_cases. Qed.

(** A call either issues nothing and keeps the counter, or issues the
    counter's value and advances it by one. *)
Lemma perform_counter (c : Call) (s : State) :
  let o := {| before := s; call := c; outcome := perform c s |} in
  (issuedBy o = None ∧
   nextObjectID_ (state_of (perform c s)).1 = nextObjectID_ s.1) ∨
  (issuedBy o = Some (nextObjectID_ s.1) ∧
   nextObjectID_ (state_of (perform c s)).1 = nextObjectID_ s.1 + 1).
Proof.
  cbn zeta. destruct c.
  4: {
    unfold issuedBy, registered; cbn.
    pose proof (initObject_outcome info meshGroup physObject s) as H.
    destruct (initObject info meshGroup physObject s) as [id s'|u s']; cbn.
    - destruct H as [(-> & -> & _) | [(-> & _ & _ & _ & E)
                                       | (-> & _ & _ & _ & _ & E)]].
      + left. by rewrite bool_decide_false by (intros ?; done).
      + left. rewrite E. by rewrite bool_decide_false by (intros ?; done).
      + right. rewrite E. by rewrite bool_decide_true by lia.
    - by left. }
  all: left; split; [by unfold issuedBy; cbn; repeat case_match|].
  all: cbn [perform]; rewrite ?state_of_ret.
  - cbn. by repeat case_match.
  - apply initPhysics_counter.
  - apply initScene_counter.
  - apply removeObject_counter.
  - apply applyForce_counter.
  - apply applyImpulse_counter.
  - apply stepPhysics_counter.
  - apply nextFrame_counter.
  - apply setTimestep_counter.
Qed.

(** The identities counted as issued are exactly the returns of the
    successful registrations. *)
Lemma issuedBy_cause (s : State) (c : Call) (objectID : Z) :
  issuedBy {| before := s; call := c; outcome := perform c s |} = Some objectID ↔
  ∃ info meshGroup physObject,
    c = CInitObject info meshGroup physObject ∧
    allPrimitivesValid meshGroup = true ∧
    backendAccepts info meshGroup physObject s = Some true ∧
    nextObjectID_ s.1 ≠ int_max ∧
    objectID = nextObjectID_ s.1.
Proof.
  split.
  - destruct c; try (unfold issuedBy; cbn; repeat case_match; done).
    unfold issuedBy, registered; cbn.
    pose proof (initObject_outcome info meshGroup physObject s) as H.
    destruct (initObject info meshGroup physObject s) as [id s'|u s']; cbn;
      [|done].
    case_bool_decide as Hmoved; [|done]. intros [= ->].
    destruct H as [(-> & _) | [(_ & _ & _ & _ & E) | (-> & Hv & Hb & Hm & _)]];
      [done | done |].
    by exists info, meshGroup, physObject.
  - intros (info & meshGroup & physObject & -> & Hv & Hb & Hm & ->).
    destruct (initObject_success info meshGroup physObject s Hv Hb Hm)
      as (s' & E & _ & Hn).
    unfold issuedBy, registered; cbn. rewrite E; cbn.
    by rewrite bool_decide_true by lia.
Qed.

Lemma issued_cons (o : Obs) (t : list Obs) :
  issued (o :: t) =
  match issuedBy o with Some id => id :: issued t | None => issued t end.
Proof. reflexivity. Qed.

Lemma exec_cons (s : State) (c : Call) (rest : list Call) :
  exec s (c :: rest) =
  {| before := s; call := c; outcome := perform c s |} ::
  match perform c s with Done _ s' => exec s' rest | Undefined _ _ => [] end.
Proof. reflexivity. Qed.

(** The identities a run issues are the consecutive integers from the
    counter it starts with. *)
Lemma issued_exec (s : State) (calls : list Call) :
  ∃ k : nat, issued (exec s calls) = seqZ (nextObjectID_ s.1) (Z.of_nat k).
Proof.
  revert s. induction calls as [|c rest IH]; intros s.
  - by exists 0%nat.
  - rewrite exec_cons, issued_cons.
    destruct (perform_counter c s) as [[-> Hn] | [-> Hn]].
    + destruct (perform c s) as [v s'|u s']; cbn in Hn.
      * destruct (IH s') as [k Hk]. exists k. by rewrite <- Hn.
      * by exists 0%nat.
    + destruct (perform c s) as [v s'|u s']; cbn in Hn.
      * destruct (IH s') as [k Hk]. exists (S k). rewrite Hk, Hn.
        rewrite (seqZ_cons _ (Z.of_nat (S k))) by lia.
        do 2 f_equal; lia.
      * by exists 1%nat.
Qed.

Lemma issued_exec_length (s : State) (calls : list Call) :
  issued (exec s calls) =
  seqZ (nextObjectID_ s.1) (Z.of_nat (length (issued (exec s calls)))).
Proof.
  destruct (issued_exec s calls) as [k Hk].
  rewrite Hk at 2. rewrite length_seqZ, Nat2Z.id. exact Hk.
Qed.

Lemma seqZ_sorted (a : Z) (k : nat) : StronglySorted Z.lt (seqZ a (Z.of_nat k)).
Proof.
  revert a. induction k as [|k IH]; intros a.
  - constructor.
  - rewrite seqZ_cons by lia. constructor.
    + replace (Z.pred (Z.of_nat (S k))) with (Z.of_nat k) by lia. apply IH.
    + apply Forall_seqZ. intros; lia.
Qed.

(** Every observation of a run is a call made in some state with the
    outcome [perform] gives it. *)
Lemma exec_obs (s : State) (calls : list Call) :
  Forall (λ o, outcome o = perform (call o) (before o)) (exec s calls).
Proof.
  revert s. induction calls as [|c rest IH]; intros s; [constructor|].
  rewrite exec_cons. constructor; [done|].
  destruct (perform c s); [apply IH | constructor].
Qed.

(** C10: on every run from a newly constructed manager the identities
    issued are exactly 0, 1, 2, ... in order (the n-th is n-1), a
    successful registration returning the counter's value and storing
    the object under it; an [initObject] whose mesh group fails
    validation returns with the state it was given, and one whose body
    the backend refuses returns -1 with the registry map and the counter
    as they were. *)
Theorem consecutive_identities :
  (∀ (h : Heap) (calls : list Call),
     let ids := issued (exec (PhysicsManager_new, h) calls) in
     ids = seqZ 0 (Z.of_nat (length ids))) ∧
  (∀ (s : State) info meshGroup physObject,
     allPrimitivesValid meshGroup = true →
     backendAccepts info meshGroup physObject s = Some true →
     nextObjectID_ s.1 ≠ int_max →
     ∃ s', initObject info meshGroup physObject s = Done (nextObjectID_ s.1) s' ∧
           dynamicObjects_ s'.1 =
             <[nextObjectID_ s.1 := physObject]> (dynamicObjects_ s.1) ∧
           nextObjectID_ s'.1 = nextObjectID_ s.1 + 1) ∧
  (∀ (s : State) info meshGroup physObject,
     allPrimitivesValid meshGroup = false →
     ∃ objectID, initObject info meshGroup physObject s = Done objectID s) ∧
  (∀ (s : State) info meshGroup physObject,
     allPrimitivesValid meshGroup = true →
     backendAccepts info meshGroup physObject s = Some false →
     ∃ s', initObject info meshGroup physObject s = Done (-1) s' ∧
           dynamicObjects_ s'.1 = dynamicObjects_ s.1 ∧
           nextObjectID_ s'.1 = nextObjectID_ s.1).
Proof.
  split; [|split; [|split]].
  - intros h calls. cbn zeta.
    apply (issued_exec_length (PhysicsManager_new, h) calls).
  - intros s info meshGroup physObject. apply initObject_success.
  - intros s info meshGroup physObject Hv. exists 0.
    by apply rejected_group_commits_nothing.
  - intros [m h] info meshGroup physObject Hv Hb.
    unfold backendAccepts in Hb. unfold initObject. rewrite Hv. cbn [negb].
    destruct meshGroup as [|first rest]; [done|]. cbn [fst snd] in Hb.
    destruct (deref physObject h) as [u|[a o]]; [done|].
    destruct (bWorld_ m) as [w|]; [|done].
    destruct (initializeObject _ _ _ _ _) as [[ok w'] o'].
    cbn in Hb. simplify_eq. cbn. eauto.
Qed.

(** C1: on every run of calls from a newly constructed manager --
    registrations, removals and all others, in any order -- the
    identities issued are strictly increasing, hence pairwise distinct,
    and the first one is 0; a removal leaves the counter where it was, so
    no later registration returns an identity issued before. *)
Theorem identity_monotonic (h : Heap) (calls : list Call) :
  let trace := exec (PhysicsManager_new, h) calls in
  let ids := issued trace in
  StronglySorted Z.lt ids ∧
  NoDup ids ∧
  (ids = [] ∨ head ids = Some 0) ∧
  Forall (λ o, ∀ objectID,
            call o = CRemoveObject objectID →
            nextObjectID_ (state_of (outcome o)).1 = nextObjectID_ (before o).1)
         trace.
Proof.
  cbn zeta.
  destruct (issued_exec (PhysicsManager_new, h) calls) as [k Hk].
  cbn [fst nextObjectID_ PhysicsManager_new] in Hk. rewrite Hk.
  split; [apply seqZ_sorted|]. split; [apply NoDup_seqZ|]. split.
  - destruct k as [|k]; [by left | right].
    by rewrite seqZ_cons by lia.
  - eapply Forall_impl; [apply exec_obs|].
    intros [s c r]; cbn. intros -> objectID ->. cbn [perform].
    rewrite state_of_ret. apply removeObject_counter.
Qed.

(** *** Interaction by identity *)

(** C2 (amended): [applyForce] and [applyImpulse] look the identity up
    with the map subscript and check nothing.  For an identity the
    registry does not hold, no body is touched and no other manager field
    changes, but the registry gains a null entry under that identity and
    the call then goes through the null pointer: undefined behaviour, not
    an error result.  For an identity bound to a live body the call
    returns, that body alone receives the force or impulse, and the
    manager is unchanged. *)
Theorem interaction_lookup_unchecked :
  (∀ (s : State) (objectID : Z) (v r : Vector3),
     dynamicObjects_ s.1 !! objectID = None →
     let s' := (with_registry (<[objectID := None]> (dynamicObjects_ s.1)) s.1,
                s.2) in
     applyForce objectID v r s = Undefined NullDeref s' ∧
     applyImpulse objectID v r s = Undefined NullDeref s' ∧
     dynamicObjects_ s'.1 !! objectID = Some None ∧
     size (dynamicObjects_ s'.1) = S (size (dynamicObjects_ s.1)) ∧
     nextObjectID_ s'.1 = nextObjectID_ s.1 ∧
     bWorld_ s'.1 = bWorld_ s.1) ∧
  (∀ (s : State) (objectID : Z) (a : addr) (o : RigidObject) (v r : Vector3),
     dynamicObjects_ s.1 !! objectID = Some (Some a) →
     s.2 !! a = Some o →
     applyForce objectID v r s =
       Done tt (s.1, <[a := bodyApplyForce v r o]> s.2) ∧
     applyImpulse objectID v r s =
       Done tt (s.1, <[a := bodyApplyImpulse v r o]> s.2)).
Proof.
  split.
  - intros [m h] objectID v r Hnone. cbn [fst snd] in *.
    unfold applyForce, applyImpulse, subscript. rewrite Hnone. cbn.
    repeat split; try done.
    + by rewrite lookup_insert_eq.
    + by apply map_size_insert_None.
  - intros [m h] objectID a o v r Hreg Hobj. cbn [fst snd] in *.
    unfold applyForce, applyImpulse, subscript, deref.
    rewrite Hreg. cbn. rewrite Hobj. done.
Qed.

(** *** Initialisation *)

Lemma perform_initialized (c : Call) (s : State) :
  initialized_ s.1 = true →
  initialized_ (state_of (perform c s)).1 = true.
Proof.
  destruct s as [m h], c; cbn [perform]; rewrite ?state_of_ret; cbn [fst].
  all: by_cases.
Qed.

(** C5 (amended): [initPhysics] has no guard against a repeated call.
    In every run, each [initPhysics] -- the first or a later one --
    returns [true], leaves [initialized_] set, and replaces the world by
    a newly built one with the given gravity, keeping the registry and
    the counter; and no call clears [initialized_], so the flag goes
    from false to true at most once. *)
Theorem initPhysics_unguarded (s : State) (calls : list Call) :
  Forall (λ o,
    (∀ node gravity simulator do_profile,
       call o = CInitPhysics node gravity simulator do_profile →
       ∃ s', outcome o = Done (RBool true) s' ∧
             initialized_ s'.1 = true ∧
             do_profile_ s'.1 = do_profile ∧
             bWorld_ s'.1 = Some (setGravity gravity newWorld) ∧
             dynamicObjects_ s'.1 = dynamicObjects_ (before o).1 ∧
             nextObjectID_ s'.1 = nextObjectID_ (before o).1) ∧
    (initialized_ (before o).1 = true →
     initialized_ (state_of (outcome o)).1 = true))
    (exec s calls).
Proof.
  eapply Forall_impl; [apply exec_obs|].
  intros [[m h] c r]; cbn. intros ->. split.
  - intros node gravity simulator do_profile ->. cbn. eauto 10.
  - apply (perform_initialized c (m, h)).
Qed.

(** *** Stepping *)

(** C7: on a manager whose [initialized_] is false, [stepPhysics]
    returns normally and hands back the very state it was given: no
    backend step, no change to the profiling counters or any other
    field; the census of [checkActiveObjects] is skipped likewise. *)
Theorem uninitialized_step_is_noop (s : State) (el : Q) (kids : list ptr) :
  initialized_ s.1 = false →
  stepPhysics el s = Done tt s ∧
  checkActiveObjects kids s = Done tt s.
Proof.
  destruct s as [m h]; cbn. intros Hinit.
  unfold stepPhysics, checkActiveObjects. rewrite Hinit. cbn.
  by destruct (physicsNode m).
Qed.

(** *** Profiling *)

(** One backend step from two states with the same simulation view
    ends the same way, whether or not the first one profiles. *)
Lemma stepPhysics_view (el1 el2 : Q) (s1 s2 : State) :
  simulationView s1 = simulationView s2 →
  do_profile_ s2.1 = false →
  total_frames_ s1.1 ≠ int_max →
  let r1 := stepPhysics el1 s1 in
  let r2 := stepPhysics el2 s2 in
  resultView r1 = resultView r2 ∧
  total_frames_ (state_of r1).1 ≤ total_frames_ s1.1 + 1 ∧
  do_profile_ (state_of r2).1 = false ∧
  total_frames_ (state_of r2).1 = total_frames_ s2.1 ∧
  total_time_ (state_of r2).1 = total_time_ s2.1.
Proof.
  destruct s1 as [m1 h1], s2 as [m2 h2]. unfold simulationView.
  destruct m1, m2; cbn [fst snd]. intros Hview Hoff Hmax; simplify_eq/=.
  unfold stepPhysics; cbn. rewrite ?(bool_decide_false _ Hmax).
  repeat (case_match; simplify_eq/=); repeat split; try done; lia.
Qed.

Lemma nextFrame_view (d : Q) (kids : list ptr) (s1 s2 : State) :
  simulationView s1 = simulationView s2 →
  let r1 := nextFrame d kids s1 in
  let r2 := nextFrame d kids s2 in
  resultView r1 = resultView r2 ∧
  total_frames_ (state_of r1).1 = total_frames_ s1.1 ∧
  do_profile_ (state_of r2).1 = do_profile_ s2.1 ∧
  total_frames_ (state_of r2).1 = total_frames_ s2.1 ∧
  total_time_ (state_of r2).1 = total_time_ s2.1.
Proof.
  destruct s1 as [m1 h1], s2 as [m2 h2]. unfold simulationView.
  destruct m1, m2; cbn [fst snd]. intros Hview; simplify_eq/=.
  unfold nextFrame, checkActiveObjects; cbn.
  repeat (case_match; simplify_eq/=); repeat split; done.
Qed.

Lemma resultView_Done {A} (r1 r2 : Result A) a s :
  resultView r1 = resultView r2 → r1 = Done a s →
  ∃ a' s', r2 = Done a' s' ∧ simulationView s = simulationView s'.
Proof.
  intros H ->. destruct r2 as [a' s'|u' s']; [|discriminate H].
  exists a', s'. split; [done|]. exact (f_equal snd H).
Qed.

Lemma resultView_Undefined {A} (r1 r2 : Result A) u s :
  resultView r1 = resultView r2 → r1 = Undefined u s →
  ∃ s', r2 = Undefined u s' ∧ simulationView s = simulationView s'.
Proof.
  intros H ->. destruct r2 as [a' s'|u' s']; [discriminate H|].
  exists s'. pose proof (f_equal fst H) as Hu. cbn in Hu.
  split; [congruence|]. exact (f_equal snd H).
Qed.

Lemma runFrames_view (frames1 frames2 : list Frame) (s1 s2 : State) :
  simulationView s1 = simulationView s2 →
  do_profile_ s2.1 = false →
  total_frames_ s1.1 + Z.of_nat (length frames1) ≤ int_max →
  Forall2 sameInputs frames1 frames2 →
  resultView (runFrames s1 frames1) = resultView (runFrames s2 frames2) ∧
  total_frames_ (state_of (runFrames s2 frames2)).1 = total_frames_ s2.1 ∧
  total_time_ (state_of (runFrames s2 frames2)).1 = total_time_ s2.1.
Proof.
  intros Hview Hoff Hmax Hin. revert s1 s2 Hview Hoff Hmax.
  induction Hin as [|f1 f2 rest1 rest2 [Hd Hk] _ IH]; intros s1 s2 Hview Hoff Hmax.
  - cbn. by rewrite Hview.
  - cbn [runFrames length] in *.
    destruct (stepPhysics_view (elapsed f1) (elapsed f2) s1 s2)
      as (Hr & Hf1 & Hoff' & Hf2 & Ht2); [done | done | lia |].
    cbn zeta in *.
    destruct (stepPhysics (elapsed f1) s1) as [[] t1|u t1] eqn:E1.
    + destruct (resultView_Done _ _ _ _ Hr eq_refl) as ([] & t2 & E2 & Hv).
      rewrite E2 in *. cbn [state_of] in *.
      rewrite <- Hd, <- Hk.
      destruct (nextFrame_view (measured f1) (children f1) t1 t2 Hv)
        as (Hr' & Hg1 & Hoff'' & Hg2 & Hu2). cbn zeta in *.
      destruct (nextFrame (measured f1) (children f1) t1) as [[] v1|u v1] eqn:F1.
      * destruct (resultView_Done _ _ _ _ Hr' eq_refl) as ([] & v2 & F2 & Hw).
        rewrite F2 in *. cbn [state_of] in *.
        destruct (IH v1 v2) as (Ha & Hb & Hc); [done | congruence | lia |].
        repeat split; [done | congruence | congruence].
      * destruct (resultView_Undefined _ _ _ _ Hr' eq_refl) as (v2 & F2 & Hw).
        rewrite F2 in *. cbn [state_of] in *.
        repeat split; [cbn; by rewrite Hw | congruence | congruence].
    + destruct (resultView_Undefined _ _ _ _ Hr eq_refl) as (t2 & E2 & Hv).
      rewrite E2 in *. cbn [state_of] in *.
      repeat split; [cbn; by rewrite Hv | done | done].
Qed.

(** C9: from one manager state, a run of frames with profiling switched
    on and a run with it switched off -- the same frame durations and
    scene children, whatever wall-clock times the two runs measure --
    end the same way with the same world, bodies, registry and every
    other field except the three profiling fields, as long as the frame
    counter stays within [int]; the run without profiling leaves the two
    profiling counters untouched. *)
Theorem profiling_noninterference (m : PhysicsManager) (h : Heap)
    (frames1 frames2 : list Frame) :
  total_frames_ m + Z.of_nat (length frames1) ≤ int_max →
  Forall2 sameInputs frames1 frames2 →
  let on := runFrames (with_do_profile true m, h) frames1 in
  let off := runFrames (with_do_profile false m, h) frames2 in
  resultView on = resultView off ∧
  total_frames_ (state_of off).1 = total_frames_ m ∧
  total_time_ (state_of off).1 = total_time_ m.
Proof.
  intros Hmax Hin.
  apply (runFrames_view frames1 frames2
           (with_do_profile true m, h) (with_do_profile false m, h));
    done.
Qed.

End PhysicsFacts.

(** ** Runs against the recording backend *)

Section DoubleFacts.
Import Double.
Local Existing Instance Double.backend.

Example run_sample :
  issued (exec fresh
    [CNew 1%positive (body true); CNew 2%positive (body false);
     CInitPhysics None down "bullet" false;
     CInitObject glb [mesh Triangles] (Some 1%positive);
     CInitObject glb [mesh Lines] (Some 1%positive);
     CInitObject glb [mesh Triangles] (Some 2%positive);
     CRemoveObject 0;
     CInitObject glb [mesh Triangles] (Some 1%positive)]) = [0].
Proof. vm_compute. reflexivity. Qed.

Example run_sample_again :
  issued (exec fresh
    [CNew 1%positive (body true); CNew 2%positive (body true);
     CInitPhysics None down "bullet" false;
     CInitObject glb [mesh Triangles] (Some 1%positive);
     CRemoveObject 0;
     CInitObject glb [mesh Triangles] (Some 2%positive);
     CInitObject glb [mesh Triangles] (Some 2%positive)]) = [0; 1; 2].
Proof. vm_compute. reflexivity. Qed.

(** C3, at a group holding one line primitive: [initObject] leaves the
    state as it was but returns 0 -- the value its [return false] takes
    in an [int] function -- which is also what the first successful
    registration returns from the same state; [initScene] returns
    [false]. *)
Theorem rejected_mesh_returns_identity_zero :
  allPrimitivesValid [mesh Lines] = false ∧
  initScene glb [mesh Lines] (Some 1%positive) ready = Done false ready ∧
  initObject glb [mesh Lines] (Some 1%positive) ready = Done 0 ready ∧
  ∃ s', initObject glb [mesh Triangles] (Some 1%positive) ready = Done 0 s' ∧
        dynamicObjects_ s'.1 !! 0 = Some (Some 1%positive) ∧
        nextObjectID_ s'.1 = 1.
Proof.
  split; [reflexivity|]. split; [reflexivity|]. split; [reflexivity|].
  eexists. split; [reflexivity|]. split; reflexivity.
Qed.

(** C2, as stated, at identity 5 on a manager holding identity 0 only:
    [applyForce] does not leave the registry as it was (it now maps 5 to
    a null pointer) and ends in a null dereference, not in an
    unknown-identity error. *)
Lemma applyForce_unknown_id_changes_registry :
  dynamicObjects_ populated.1 !! 5 = None ∧
  ∃ s', applyForce 5 down down populated = Undefined NullDeref s' ∧
        dynamicObjects_ s'.1 !! 5 = Some None ∧
        dynamicObjects_ s'.1 ≠ dynamicObjects_ populated.1.
Proof.
  split; [reflexivity|]. eexists. split; [reflexivity|].
  split; [reflexivity|].
  intros E. apply (f_equal (λ d, d !! 5)) in E. vm_compute in E. discriminate E.
Qed.

(** C5, as stated, on a manager that is initialised and has stepped: a
    second [initPhysics] returns [true] and replaces the stepped world
    (10 sub-steps run) by a new one (none run). *)
Lemma second_initPhysics_succeeds :
  let s1 := state_of (stepPhysics 0%Q afterLongFrame) in
  initialized_ s1.1 = true ∧
  subSteps <$> bWorld_ s1.1 = Some 10 ∧
  ∃ s2, initPhysics None down "bullet" false s1 = Done true s2 ∧
        initialized_ s2.1 = true ∧
        subSteps <$> bWorld_ s2.1 = Some 0.
Proof.
  cbn zeta. split; [reflexivity|]. split; [reflexivity|].
  eexists. split; [reflexivity|]. split; reflexivity.
Qed.

(** *** The sub-step cap *)

Lemma numSubSteps_range (dt : Q) (maxSubSteps : Z) (fixedTimeStep : Q) :
  0 ≤ maxSubSteps →
  0 ≤ numSubSteps dt maxSubSteps fixedTimeStep ≤ maxSubSteps.
Proof. intros Hmax. unfold numSubSteps. case_match; lia. Qed.

(** Whatever the frame duration, one backend step covers at most
    [maxSubSteps * fixedTimeStep] of simulated time. *)
Lemma step_bound (dt : Q) (maxSubSteps : Z) (fixedTimeStep : Q) (w : DWorld) :
  0 ≤ maxSubSteps → (0 <= fixedTimeStep)%Q →
  (simTime (step dt maxSubSteps fixedTimeStep w) - simTime w
   <= inject_Z maxSubSteps * fixedTimeStep)%Q.
Proof.
  intros Hmax Hfts. unfold step; cbn [simTime].
  pose proof (numSubSteps_range dt maxSubSteps fixedTimeStep Hmax) as [_ Hn].
  set (n := numSubSteps dt maxSubSteps fixedTimeStep) in *.
  assert (inject_Z n <= inject_Z maxSubSteps)%Q as Hq
    by (by rewrite <- Zle_Qle).
  assert (inject_Z n * fixedTimeStep <= inject_Z maxSubSteps * fixedTimeStep)%Q
    by (by apply Qmult_le_compat_r).
  lra.
Qed.

Lemma numSubSteps_long_frame (dt fixedTimeStep : Q) :
  (dt == 1)%Q → (fixedTimeStep == 1 # 240)%Q →
  numSubSteps dt 10 fixedTimeStep = 10.
Proof.
  intros Hdt Hfts. unfold numSubSteps.
  destruct (Qle_bool fixedTimeStep 0) eqn:E.
  - apply Qle_bool_iff in E. rewrite Hfts in E. by apply Qle_bool_iff in E.
  - rewrite Hdt, Hfts. reflexivity.
Qed.

(** C6: with [fixedTimeStep_] 1/240 and [maxSubSteps_] 10 on an
    initialised manager, one [stepPhysics] for a frame that lasted
    1.0 second returns and has advanced the world by ten sub-steps:
    at most 10 * (1/240) seconds of simulated time, less than the full
    second. *)
Theorem fixed_step_bound (m : PhysicsManager) (h : Heap) (w : DWorld) (el : Q) :
  initialized_ m = true →
  bWorld_ m = Some w →
  (fixedTimeStep_ m == 1 # 240)%Q →
  maxSubSteps_ m = 10 →
  (previousFrameDuration (timeline_ m) == 1)%Q →
  total_frames_ m ≠ int_max →
  ∃ m' w',
    stepPhysics el (m, h) = Done tt (m', h) ∧
    bWorld_ m' = Some w' ∧
    subSteps w' = subSteps w + 10 ∧
    (simTime w' - simTime w <= 10 * (1 # 240))%Q ∧
    (simTime w' - simTime w < 1)%Q.
Proof.
  intros Hinit Hw Hfts Hmax Hdt Hframes.
  assert (∃ m', stepPhysics el (m, h) =
                Done tt (m', h) ∧
                bWorld_ m' =
                Some (step (previousFrameDuration (timeline_ m))
                           (maxSubSteps_ m) (fixedTimeStep_ m) w))
    as (m' & Hstep & Hw').
  { unfold stepPhysics. rewrite Hinit, Hw. cbn.
    rewrite (bool_decide_false _ Hframes).
    destruct (do_profile_ m); eexists; split; reflexivity. }
  exists m'. eexists. split; [exact Hstep|]. split; [exact Hw'|].
  unfold step; cbn [subSteps simTime].
  rewrite Hmax, (numSubSteps_long_frame _ _ Hdt Hfts).
  split; [reflexivity|].
  assert (simTime w + inject_Z 10 * fixedTimeStep_ m - simTime w
          == 10 * (1 # 240))%Q as ->
    by (rewrite Hfts; unfold inject_Z; ring).
  split; [apply Qle_refl | reflexivity].
Qed.

Lemma fixed_step_bound_witness :
  ∃ m' w',
    stepPhysics 0%Q afterLongFrame = Done tt (m', afterLongFrame.2) ∧
    bWorld_ m' = Some w' ∧
    subSteps w' = 10 ∧
    (simTime w' - 0 <= 10 * (1 # 240))%Q ∧
    (simTime w' - 0 < 1)%Q.
Proof.
  apply (fixed_step_bound afterLongFrame.1 afterLongFrame.2
           {| gravity := down; numBodies := 0; subSteps := 0; simTime := 0%Q |}
           0%Q);
    first [ reflexivity | discriminate ].
Defined.

(** *** The general statements at sample inputs *)

Lemma consecutive_identities_witness :
  issued (exec fresh sampleCalls) = [0; 1] ∧
  issued (exec fresh sampleCalls) =
    seqZ 0 (Z.of_nat (length (issued (exec fresh sampleCalls)))) ∧
  (∃ s', initObject glb [mesh Triangles] (Some 1%positive) ready
           = Done (nextObjectID_ ready.1) s' ∧
         dynamicObjects_ s'.1 =
           <[nextObjectID_ ready.1 := Some 1%positive]> (dynamicObjects_ ready.1) ∧
         nextObjectID_ s'.1 = nextObjectID_ ready.1 + 1) ∧
  (∃ objectID,
     initObject glb [mesh Lines] (Some 1%positive) ready = Done objectID ready) ∧
  (∃ s', initObject glb [mesh Triangles] (Some 2%positive) ready = Done (-1) s' ∧
         dynamicObjects_ s'.1 = dynamicObjects_ ready.1 ∧
         nextObjectID_ s'.1 = nextObjectID_ ready.1).
Proof.
  destruct (consecutive_identities (B := backend)) as (H1 & H2 & H3 & H4).
  split; [reflexivity|]. split; [|split; [|split]].
  - exact (H1 ∅ sampleCalls).
  - apply (H2 ready glb [mesh Triangles] (Some 1%positive));
      first [reflexivity | discriminate].
  - apply H3. reflexivity.
  - apply H4; reflexivity.
Defined.

Lemma identity_monotonic_witness :
  let ids := issued (exec fresh sampleCalls) in
  ids = [0; 1] ∧ StronglySorted Z.lt ids ∧ NoDup ids ∧
  (ids = [] ∨ head ids = Some 0).
Proof.
  cbn zeta. split; [reflexivity|].
  destruct (identity_monotonic (B := backend) ∅ sampleCalls)
    as (Hs & Hn & Hh & _).
  split; [exact Hs|]. split; [exact Hn | exact Hh].
Defined.

Lemma interaction_lookup_unchecked_witness :
  applyImpulse 5 down down populated =
    Undefined NullDeref
      (with_registry (<[5 := None]> (dynamicObjects_ populated.1)) populated.1,
       populated.2) ∧
  ∃ o, populated.2 !! 1%positive = Some o ∧
       applyForce 0 down down populated =
         Done tt (populated.1,
                  <[1%positive := bodyApplyForce down down o]> populated.2).
Proof.
  destruct (interaction_lookup_unchecked (B := backend)) as (H1 & H2).
  split.
  - apply (H1 populated 5 down down). reflexivity.
  - eexists. split; [reflexivity|].
    apply (H2 populated 0 1%positive); reflexivity.
Defined.

Lemma initPhysics_unguarded_witness :
  ∃ s', perform (CInitPhysics None down "bullet" true) ready
          = Done (RBool true) s' ∧
        initialized_ s'.1 = true ∧
        dynamicObjects_ s'.1 = dynamicObjects_ ready.1.
Proof.
  pose proof (initPhysics_unguarded (B := backend) ready
                [CInitPhysics None down "bullet" true]) as H.
  apply Forall_inv in H. destruct H as [H _].
  destruct (H None down "bullet" true eq_refl) as (s' & E & Hi & _ & _ & Hd & _).
  exists s'. split; [exact E|]. split; [exact Hi | exact Hd].
Defined.

Lemma uninitialized_step_is_noop_witness :
  stepPhysics 1%Q fresh = Done tt fresh ∧
  checkActiveObjects [Some 1%positive] fresh = Done tt fresh.
Proof.
  apply (uninitialized_step_is_noop (B := backend) fresh 1%Q [Some 1%positive]).
  reflexivity.
Defined.

Lemma profiling_noninterference_witness :
  let on := runFrames (with_do_profile true populated.1, populated.2)
                      profiledFrames in
  let off := runFrames (with_do_profile false populated.1, populated.2)
                       plainFrames in
  resultView on = resultView off ∧
  total_frames_ (state_of off).1 = 0 ∧
  total_frames_ (state_of on).1 = 2.
Proof.
  cbn zeta.
  destruct (profiling_noninterference (B := backend)
              populated.1 populated.2 profiledFrames plainFrames)
    as (Hv & Hf & _).
  - vm_compute. discriminate.
  - repeat constructor.
  - split; [exact Hv|]. split; [exact Hf | reflexivity].
Defined.

End DoubleFacts.

(* ===================================================================== *)
(** * Further properties *)
(* ===================================================================== *)

(** ** The attribute store: queries, setters, erasure *)

Section AttributesMore.
Import Attributes.

Ltac by_lookups a k :=
  unfold exists_, existsAs, count, map_count;
  destruct (doubleMap_ a !! k), (intMap_ a !! k), (stringMap_ a !! k),
           (magnumVec3Map_ a !! k), (vecStringsMap_ a !! k); cbn.

(** X1: [exists] answers true exactly when [count] is positive, and
    exactly when [existsAs] answers true for one of the five types. *)
Theorem exists_iff_count_positive (a : t) (key : string) :
  (exists_ a key = true ↔ 0 < count a key) ∧
  (exists_ a key = true ↔ ∃ ty, existsAs a ty key = true).
Proof.
  split.
  - by_lookups a key; split; (done || lia).
  - split.
    + by_lookups a key; intros H; try done;
        first [ by exists DOUBLE | by exists INT | by exists STRING
              | by exists MAGNUMVEC3 | by exists VEC_STRINGS ].
    + intros [ty H]. revert H. by_lookups a key; destruct ty; done.
Qed.

(** X2: [count] is the number of types for which [existsAs] answers
    true, so it lies between 0 and 5. *)
Theorem count_is_number_of_types (a : t) (key : string) :
  count a key =
    foldr (λ ty n, (if existsAs a ty key then 1 else 0) + n) 0 allTypes ∧
  0 ≤ count a key ≤ 5.
Proof. by_lookups a key; split; (reflexivity || lia). Qed.

(** X3: a getter after the setter of its type on the same key returns
    the value set, for each of the five types; and of two sets of one
    key the later one wins. *)
Theorem set_get_roundtrip (a : t) (key : string) :
  (∀ v, getDouble (setDouble a key v) key = Some v) ∧
  (∀ v, getInt (setInt a key v) key = Some v) ∧
  (∀ v, getString (setString a key v) key = Some v) ∧
  (∀ v, getMagnumVec3 (setMagnumVec3 a key v) key = Some v) ∧
  (∀ v, getVecStrings (setVecStrings a key v) key = Some v) ∧
  (∀ v w, setDouble (setDouble a key v) key w = setDouble a key w) ∧
  (∀ v w, setInt (setInt a key v) key w = setInt a key w) ∧
  (∀ v w, setString (setString a key v) key w = setString a key w) ∧
  (∀ v w, setMagnumVec3 (setMagnumVec3 a key v) key w = setMagnumVec3 a key w) ∧
  (∀ v w, setVecStrings (setVecStrings a key v) key w = setVecStrings a key w).
Proof.
  unfold getDouble, getInt, getString, getMagnumVec3, getVecStrings,
    setDouble, setInt, setString, setMagnumVec3, setVecStrings; cbn.
  repeat split; intros; rewrite ?lookup_insert_eq, ?insert_insert_eq; done.
Qed.

(** X4: a getter fails (the [std::map::at] throws) exactly when
    [existsAs] answers false for its type. *)
Theorem get_fails_iff_absent (a : t) (key : string) :
  (getDouble a key = None ↔ existsAs a DOUBLE key = false) ∧
  (getInt a key = None ↔ existsAs a INT key = false) ∧
  (getString a key = None ↔ existsAs a STRING key = false) ∧
  (getMagnumVec3 a key = None ↔ existsAs a MAGNUMVEC3 key = false) ∧
  (getVecStrings a key = None ↔ existsAs a VEC_STRINGS key = false).
Proof.
  unfold getDouble, getInt, getString, getMagnumVec3, getVecStrings.
  by_lookups a key; repeat split; done.
Qed.

Lemma agreeAt_refl (a : t) (key : string) : agreeAt a a key.
Proof. by repeat split. Qed.

Lemma agreeAt_queries (a b : t) (key : string) :
  agreeAt a b key →
  exists_ a key = exists_ b key ∧ count a key = count b key ∧
  ∀ ty, existsAs a ty key = existsAs b ty key.
Proof.
  intros (E1 & E2 & E3 & E4 & E5).
  unfold exists_, existsAs, count, map_count.
  rewrite E1, E2, E3, E4, E5. done.
Qed.

(** X5: a setter raises [count] of its key by one exactly when its
    partition did not hold the key, makes [existsAs] true for its type,
    and leaves every other key as it was. *)
Theorem set_counts_once (a : t) (key : string) :
  (∀ v, let b := setDouble a key v in
        existsAs b DOUBLE key = true ∧
        count b key = count a key + (if existsAs a DOUBLE key then 0 else 1) ∧
        ∀ other, other ≠ key → agreeAt b a other) ∧
  (∀ v, let b := setInt a key v in
        existsAs b INT key = true ∧
        count b key = count a key + (if existsAs a INT key then 0 else 1) ∧
        ∀ other, other ≠ key → agreeAt b a other) ∧
  (∀ v, let b := setString a key v in
        existsAs b STRING key = true ∧
        count b key = count a key + (if existsAs a STRING key then 0 else 1) ∧
        ∀ other, other ≠ key → agreeAt b a other) ∧
  (∀ v, let b := setMagnumVec3 a key v in
        existsAs b MAGNUMVEC3 key = true ∧
        count b key = count a key + (if existsAs a MAGNUMVEC3 key then 0 else 1) ∧
        ∀ other, other ≠ key → agreeAt b a other) ∧
  (∀ v, let b := setVecStrings a key v in
        existsAs b VEC_STRINGS key = true ∧
        count b key = count a key + (if existsAs a VEC_STRINGS key then 0 else 1) ∧
        ∀ other, other ≠ key → agreeAt b a other).
Proof.
  repeat split; cbn zeta; intros.
  all: try (unfold agreeAt, setDouble, setInt, setString, setMagnumVec3,
              setVecStrings; cbn; rewrite ?lookup_insert_ne by done;
            by repeat split).
  all: unfold existsAs, count, setDouble, setInt, setString, setMagnumVec3,
         setVecStrings; cbn; rewrite ?map_count_insert; cbn; try done.
  all: unfold map_count;
       destruct (doubleMap_ a !! key), (intMap_ a !! key),
         (stringMap_ a !! key), (magnumVec3Map_ a !! key),
         (vecStringsMap_ a !! key); reflexivity.
Qed.

(** X6: [eraseAll] removes the key from every partition and nothing
    else; it is the five [eraseAs] calls on that key one after another,
    does nothing to a store that does not hold the key, and repeating it
    changes nothing further. *)
Theorem eraseAll_removes_everywhere (a : t) (key : string) :
  exists_ (eraseAll a key) key = false ∧
  count (eraseAll a key) key = 0 ∧
  (∀ other, other ≠ key → agreeAt (eraseAll a key) a other) ∧
  eraseAll a key = foldr (λ ty b, eraseAs b ty key) a allTypes ∧
  (exists_ a key = false → eraseAll a key = a) ∧
  eraseAll (eraseAll a key) key = eraseAll a key.
Proof.
  split; [|split; [|split; [|split; [|split]]]].
  - unfold exists_, eraseAll; cbn.
    by rewrite !erase_if_present_delete, !map_count_delete.
  - unfold count, eraseAll; cbn.
    by rewrite !erase_if_present_delete, !map_count_delete.
  - intros other Hne. unfold agreeAt, eraseAll; cbn.
    rewrite !erase_if_present_delete, !lookup_delete_ne by done. done.
  - reflexivity.
  - destruct a as [d i s v l]. unfold exists_, eraseAll, erase_if_present; cbn.
    repeat case_match; done.
  - unfold eraseAll; cbn. rewrite !erase_if_present_delete.
    by rewrite !delete_delete_eq.
Qed.

Lemma eraseAs_delete (a : t) (ty : DataType) (key : string) :
  eraseAs a ty key =
  match ty with
  | DOUBLE => mk (delete key (doubleMap_ a)) (intMap_ a) (stringMap_ a)
                 (magnumVec3Map_ a) (vecStringsMap_ a)
  | INT => mk (doubleMap_ a) (delete key (intMap_ a)) (stringMap_ a)
              (magnumVec3Map_ a) (vecStringsMap_ a)
  | STRING => mk (doubleMap_ a) (intMap_ a) (delete key (stringMap_ a))
                 (magnumVec3Map_ a) (vecStringsMap_ a)
  | MAGNUMVEC3 => mk (doubleMap_ a) (intMap_ a) (stringMap_ a)
                     (delete key (magnumVec3Map_ a)) (vecStringsMap_ a)
  | VEC_STRINGS => mk (doubleMap_ a) (intMap_ a) (stringMap_ a)
                      (magnumVec3Map_ a) (delete key (vecStringsMap_ a))
  end.
Proof. destruct ty; unfold eraseAs; by rewrite !erase_if_present_delete. Qed.

(** X7: [eraseAs] removes the key from the partition of the given type
    only: [existsAs] for that type becomes false, [count] drops by one
    exactly when the partition held the key, the other types and the
    other keys are as before, and on a partition that does not hold the
    key the store is returned as it was. *)
Theorem eraseAs_removes_one (a : t) (ty : DataType) (key : string) :
  existsAs (eraseAs a ty key) ty key = false ∧
  count (eraseAs a ty key) key =
    count a key - (if existsAs a ty key then 1 else 0) ∧
  (∀ ty', ty' ≠ ty → existsAs (eraseAs a ty key) ty' key = existsAs a ty' key) ∧
  (∀ other, other ≠ key → agreeAt (eraseAs a ty key) a other) ∧
  (existsAs a ty key = false → eraseAs a ty key = a).
Proof.
  split; [|split; [|split; [|split]]].
  - rewrite eraseAs_delete. destruct ty; unfold existsAs; cbn;
      by rewrite map_count_delete.
  - rewrite eraseAs_delete. destruct ty; unfold existsAs, count; cbn;
      rewrite map_count_delete; unfold map_count;
      destruct (doubleMap_ a !! key), (intMap_ a !! key),
        (stringMap_ a !! key), (magnumVec3Map_ a !! key),
        (vecStringsMap_ a !! key); reflexivity.
  - intros ty' Hne. rewrite eraseAs_delete.
    destruct ty, ty'; try done; reflexivity.
  - intros other Hne. rewrite eraseAs_delete.
    destruct ty; unfold agreeAt; cbn;
      rewrite lookup_delete_ne by done; done.
  - destruct a as [d i s v l].
    destruct ty; unfold existsAs, eraseAs, erase_if_present; cbn;
      repeat case_match; done.
Qed.

Lemma clearAs_empty (a : t) (ty : DataType) :
  clearAs a ty =
  match ty with
  | DOUBLE => mk ∅ (intMap_ a) (stringMap_ a) (magnumVec3Map_ a) (vecStringsMap_ a)
  | INT => mk (doubleMap_ a) ∅ (stringMap_ a) (magnumVec3Map_ a) (vecStringsMap_ a)
  | STRING => mk (doubleMap_ a) (intMap_ a) ∅ (magnumVec3Map_ a) (vecStringsMap_ a)
  | MAGNUMVEC3 => mk (doubleMap_ a) (intMap_ a) (stringMap_ a) ∅ (vecStringsMap_ a)
  | VEC_STRINGS => mk (doubleMap_ a) (intMap_ a) (stringMap_ a) (magnumVec3Map_ a) ∅
  end.
Proof. by destruct ty. Qed.

(** X8: [clear] empties the store; it is the five [clearAs] calls one
    after another.  [clearAs] empties the partition of the given type
    and leaves the answers of [existsAs] for every other type as they
    were. *)
Theorem clear_empties (a : t) :
  (∀ key, exists_ (clear a) key = false ∧ count (clear a) key = 0) ∧
  clear a = foldr (λ ty b, clearAs b ty) a allTypes ∧
  (∀ ty key, existsAs (clearAs a ty) ty key = false) ∧
  (∀ ty ty' key, ty' ≠ ty →
     existsAs (clearAs a ty) ty' key = existsAs a ty' key) ∧
  (∀ ty key, count (clearAs a ty) key =
             count a key - (if existsAs a ty key then 1 else 0)).
Proof.
  split; [|split; [|split; [|split]]].
  - intros key. unfold exists_, count, clear, map_count; cbn.
    by rewrite !lookup_empty.
  - reflexivity.
  - intros ty key. rewrite clearAs_empty.
    destruct ty; unfold existsAs, map_count; cbn; by rewrite lookup_empty.
  - intros ty ty' key Hne. destruct ty, ty'; try done; reflexivity.
  - intros ty key. rewrite clearAs_empty.
    destruct ty; unfold existsAs, count, map_count; cbn;
      rewrite lookup_empty;
      destruct (doubleMap_ a !! key), (intMap_ a !! key),
        (stringMap_ a !! key), (magnumVec3Map_ a !! key),
        (vecStringsMap_ a !! key); reflexivity.
Qed.

Lemma appendVecStrings_get (a : t) (key x : string) :
  getVecStrings (appendVecStrings a key x) key =
  Some (default [] (getVecStrings a key) ++ [x]).
Proof. unfold getVecStrings, appendVecStrings; cbn. by rewrite lookup_insert_eq. Qed.

Lemma appendVecStrings_other (a : t) (key x other : string) :
  other ≠ key → agreeAt (appendVecStrings a key x) a other.
Proof.
  intros Hne. unfold agreeAt, appendVecStrings; cbn.
  rewrite lookup_insert_ne by done. done.
Qed.

(** X9: [appendVecStrings] creates the list under an absent key and
    otherwise appends at the end: after appending the strings [xs] in
    order to a key, the key holds its former list (empty when it had
    none) followed by [xs]; the key then exists as a string list, and
    no other key changes. *)
Theorem append_extends_at_end (a : t) (key : string) (xs : list string) :
  let b := foldl (λ b x, appendVecStrings b key x) a xs in
  getVecStrings b key =
    match xs with
    | [] => getVecStrings a key
    | _ :: _ => Some (default [] (getVecStrings a key) ++ xs)
    end ∧
  (xs ≠ [] → existsAs b VEC_STRINGS key = true) ∧
  (∀ other, other ≠ key → agreeAt b a other).
Proof.
  cbn zeta.
  assert (∀ xs a, xs ≠ [] →
            getVecStrings (foldl (λ b x, appendVecStrings b key x) a xs) key =
            Some (default [] (getVecStrings a key) ++ xs)) as Hget.
  { clear. induction xs as [|x xs IH]; intros a Hne; [done|]. cbn [foldl].
    destruct xs as [|y ys]; [apply appendVecStrings_get|].
    rewrite IH by done. rewrite appendVecStrings_get. cbn.
    by rewrite <- app_assoc. }
  split; [|split].
  - destruct xs as [|x xs]; [done|]. by apply Hget.
  - intros Hne. apply Hget with (a := a) in Hne.
    unfold getVecStrings in Hne. unfold existsAs, map_count. cbn.
    by rewrite Hne.
  - intros other Hne. revert a. induction xs as [|x xs IH]; intros a; cbn.
    + apply agreeAt_refl.
    + destruct (IH (appendVecStrings a key x)) as (E1 & E2 & E3 & E4 & E5).
      destruct (appendVecStrings_other a key x other Hne)
        as (F1 & F2 & F3 & F4 & F5).
      repeat split; congruence.
Qed.

Ltac key_in H := repeat (apply elem_of_cons in H as [-> | H]);
                 [.. | by apply elem_of_nil in H]; vm_compute; reflexivity.

Ltac key_out H :=
  repeat (apply not_elem_of_cons in H as [? H]);
  unfold count, map_count; cbn;
  rewrite ?lookup_insert_ne by done; by rewrite ?lookup_empty.

(** X10: the three default-filled stores hold exactly the keys their
    constructors set, each in exactly one partition: [count] is 1 on
    those keys and 0 on every other key. *)
Theorem default_keys_once (key : string) :
  count PhysicsObjectAttributes_new key =
    (if bool_decide (key ∈ objectKeys) then 1 else 0) ∧
  count PhysicsSceneAttributes_new key =
    (if bool_decide (key ∈ sceneKeys) then 1 else 0) ∧
  count PhysicsManagerAttributes_new key =
    (if bool_decide (key ∈ managerKeys) then 1 else 0).
Proof.
  split; [|split]; case_bool_decide as H.
  - key_in H.
  - key_out H.
  - key_in H.
  - key_out H.
  - key_in H.
  - key_out H.
Qed.

End AttributesMore.

(** ** The physics manager: validation, edges, invariants *)

Section PhysicsMore.
Context `{B : Backend}.

Lemma validateGroup_verdict (g : list CollisionMeshData) :
  (validateGroup g).1 = allPrimitivesValid g.
Proof.
  induction g as [|md rest IH]; [done|]. cbn.
  destruct (isMeshPrimitiveValid md) as [ok lines]; cbn.
  destruct ok; cbn; [|done].
  destruct (validateGroup rest); cbn in *. done.
Qed.

Lemma validateGroup_accepted (g : list CollisionMeshData) :
  allPrimitivesValid g = true → validateGroup g = (true, []).
Proof.
  induction g as [|md rest IH]; [done|]. cbn.
  destruct md as [p pos idx]; destruct p; cbn; try done.
  intros Hrest. by rewrite IH.
Qed.

(** X11: the validation loop of [initScene] and [initObject] accepts a
    group exactly when every primitive is a triangle list, so the
    verdict on a concatenation is the conjunction of the verdicts; an
    accepted group writes no error line, and a rejected one writes the
    lines of its first rejected primitive only, whatever follows it. *)
Theorem validation_stops_at_first_rejection :
  (∀ g, (validateGroup g).1 = allPrimitivesValid g) ∧
  (∀ g, allPrimitivesValid g = true ↔
        Forall (λ meshData, primitive meshData = Triangles) g) ∧
  (∀ g1 g2, allPrimitivesValid (g1 ++ g2) =
            allPrimitivesValid g1 && allPrimitivesValid g2) ∧
  (∀ g, allPrimitivesValid g = true → (validateGroup g).2 = []) ∧
  (∀ pre bad post,
     allPrimitivesValid pre = true →
     (isMeshPrimitiveValid bad).1 = false →
     validateGroup (pre ++ bad :: post) = (false, (isMeshPrimitiveValid bad).2)).
Proof.
  split; [exact validateGroup_verdict|]. split; [|split; [|split]].
  - intros g. rewrite allPrimitivesValid_true. apply Forall_proper; [|done].
    intros [p pos idx]. destruct p; cbn; split; done.
  - induction g1 as [|md rest IH]; intros g2; [done|]. cbn.
    destruct (isMeshPrimitiveValid md).1; cbn; [apply IH | done].
  - intros g Hg. by rewrite validateGroup_accepted.
  - induction pre as [|md rest IH]; intros bad post Hpre Hbad; cbn.
    + destruct (isMeshPrimitiveValid bad) as [ok lines]; cbn in *.
      by subst ok.
    + cbn in Hpre. destruct (isMeshPrimitiveValid md) as [ok lines] eqn:E.
      destruct ok; cbn in *; [|done].
      rewrite (IH bad post Hpre Hbad).
      destruct md as [p pos idx]; destruct p; cbn in E; simplify_eq. done.
Qed.

Lemma validation_stops_at_first_rejection_witness :
  validateGroup [Double.mesh Triangles; Double.mesh LineLoop; Double.mesh Points]
  = (false, [[LStr "Invalid primitive Line loop"]; skipLine]).
Proof.
  destruct validation_stops_at_first_rejection as (_ & _ & _ & _ & H).
  apply (H [Double.mesh Triangles] (Double.mesh LineLoop) [Double.mesh Points]);
    reflexivity.
Defined.

(** X12: registration cannot go through without a world.  While
    [bWorld_] is empty -- as in a newly constructed manager -- [initScene]
    and [initObject] on a group that passes validation end in undefined
    behaviour in the state they were given; and [initObject] on an empty
    group does so in every state, since it reads [meshGroup[0]]. *)
Theorem registration_needs_world (s : State) (info : AssetInfo)
    (meshGroup : list CollisionMeshData) (physObject : ptr) :
  initObject info [] physObject s = Undefined OutOfRange s ∧
  (bWorld_ s.1 = None →
   allPrimitivesValid meshGroup = true →
   (∃ u, initScene info meshGroup physObject s = Undefined u s) ∧
   (∃ u, initObject info meshGroup physObject s = Undefined u s)).
Proof.
  destruct s as [m h]; cbn [fst]. split; [done|].
  intros Hw Hv. unfold initScene, initObject. rewrite Hv, Hw. cbn.
  split.
  - destruct (deref physObject h) as [u|[a o]]; eauto.
  - destruct meshGroup; [eauto|].
    destruct (deref physObject h) as [u|[a o]]; eauto.
Qed.

(** X13: [initScene] never registers anything.  However it ends, the
    registry map, the identity counter, [initialized_], the profiling
    fields, the timeline and the time step are as before, and the heap
    differs at most at the scene object; on a group that passes
    validation, with a live scene object and a world, it returns what
    the backend answers to a request with mass 0. *)
Theorem initScene_registers_nothing (s : State) (info : AssetInfo)
    (meshGroup : list CollisionMeshData) (physObject : ptr) :
  let r := initScene info meshGroup physObject s in
  (with_world (bWorld_ s.1) (state_of r).1 = s.1 ∧
   ∀ a, physObject ≠ Some a → (state_of r).2 !! a = s.2 !! a) ∧
  (∀ a o w,
     allPrimitivesValid meshGroup = true →
     physObject = Some a → s.2 !! a = Some o → bWorld_ s.1 = Some w →
     ∃ s', r = Done (initializeScene info 0%Q meshGroup w o).1.1 s').
Proof.
  destruct s as [m h]. cbn zeta. split.
  - unfold initScene.
    destruct (negb (allPrimitivesValid meshGroup));
      [by destruct m|].
    unfold deref. destruct physObject as [b|]; [|by destruct m].
    destruct (h !! b); [|by destruct m].
    destruct (bWorld_ m) eqn:Ew; [|by destruct m].
    destruct (initializeScene _ _ _ _ _) as [[ok w'] o']. cbn.
    split; [destruct m; cbn in *; by subst|].
    intros a Hne. rewrite lookup_insert_ne by congruence. done.
  - intros a o w Hv -> Ho Hw. cbn [fst snd] in *.
    unfold initScene, deref. rewrite Hv, Ho, Hw. cbn.
    destruct (initializeScene _ _ _ _ _) as [[ok w'] o']. eauto.
Qed.

(** *** What every reached state satisfies *)

Lemma wellFormed_new (h : Heap) : wellFormed (PhysicsManager_new, h).
Proof.
  unfold wellFormed, PhysicsManager_new, int_max; simpl.
  split; [lia|]. split; [lia|]. split; [|split].
  - intros objectID. rewrite lookup_empty. split; [intros [? ?]; done | lia].
  - intros objectID. by rewrite lookup_empty.
  - split; [done | intros [? ?]; done].
Qed.

(** Well-formedness looks at five fields only. *)
Lemma wellFormed_fields (s s' : State) :
  wellFormed s →
  nextObjectID_ s'.1 = nextObjectID_ s.1 →
  0 ≤ total_frames_ s'.1 ≤ int_max →
  dynamicObjects_ s'.1 = dynamicObjects_ s.1 →
  (initialized_ s'.1 = true ↔ is_Some (bWorld_ s'.1)) →
  wellFormed s'.
Proof.
  intros (Hc & Hf & Hd & Hn & Hw) Ec Ef Ed Ew. unfold wellFormed.
  rewrite Ec, Ed. done.
Qed.

(** A call from the source that returns leaves a well-formed state
    well-formed. *)
Lemma perform_wellFormed (c : Call) (s : State) (v : Ret) (s' : State) :
  wellFormed s → fromSource c = true → perform c s = Done v s' →
  wellFormed s'.
Proof.
  destruct s as [m h]. intros Hwf Hsrc E.
  pose proof Hwf as (Hc & Hf & Hd & Hn & Hw). cbn [fst snd] in *.
  destruct c; try done; cbn [perform] in E.
  - (* CNew *)
    cbn in E. destruct (h !! a); simplify_eq; done.
  - (* CInitPhysics *)
    cbn in E. simplify_eq.
    apply (wellFormed_fields (m, h)); cbn; try done; split; eauto.
  - (* CInitScene *)
    unfold initScene in E.
    destruct (negb (allPrimitivesValid meshGroup)); [by simplify_eq/=|].
    destruct (deref physObject h) as [u|[a o]]; [done|].
    destruct (bWorld_ m) as [w|] eqn:Ew; [|done].
    destruct (initializeScene _ _ _ _ _) as [[ok w'] o']. simplify_eq/=.
    apply (wellFormed_fields (m, h)); cbn; try done;
      split; [eauto | intros _; apply Hw; eauto].
  - (* CInitObject *)
    unfold initObject in E.
    destruct (negb (allPrimitivesValid meshGroup)); [by simplify_eq/=|].
    destruct meshGroup as [|first rest]; [done|].
    unfold deref in E. destruct physObject as [a|]; [|done].
    destruct (h !! a) as [o|]; [|done].
    destruct (bWorld_ m) as [w|] eqn:Ew; [|done].
    destruct (initializeObject _ _ _ _ _) as [[ok w'] o'].
    destruct ok; cbn [negb] in E.
    + cbn in E. case_bool_decide as Hmax; [done|]. simplify_eq/=.
      unfold wellFormed; cbn.
      split; [lia|]. split; [done|]. split; [|split].
      * intros objectID. rewrite lookup_insert. case_decide as Hid.
        -- subst. split; [lia | eauto].
        -- rewrite Hd. lia.
      * intros objectID. rewrite lookup_insert. case_decide; [done | apply Hn].
      * split; [eauto | intros _; apply Hw; eauto].
    + simplify_eq/=.
      apply (wellFormed_fields (m, h)); cbn; try done;
        split; [eauto | intros _; apply Hw; eauto].
  - (* CApplyForce *)
    unfold applyForce, subscript in E.
    destruct (dynamicObjects_ m !! objectID) as [p|]; [|done].
    destruct (deref p h) as [u|[a o]]; [done|]. by simplify_eq/=.
  - (* CApplyImpulse *)
    unfold applyImpulse, subscript in E.
    destruct (dynamicObjects_ m !! objectID) as [p|]; [|done].
    destruct (deref p h) as [u|[a o]]; [done|]. by simplify_eq/=.
  - (* CStepPhysics *)
    unfold stepPhysics in E.
    destruct (negb (initialized_ m)); [by simplify_eq/=|].
    destruct (bWorld_ m) as [w|] eqn:Ew; [|done].
    destruct (stepSimulation _ _ _ _ _) as [w' h']. cbn in E.
    destruct (do_profile_ m).
    + case_bool_decide as Hmax; [done|]. simplify_eq/=.
      apply (wellFormed_fields (m, h)); cbn; try done; try lia;
        split; [eauto | intros _; apply Hw; eauto].
    + simplify_eq/=.
      apply (wellFormed_fields (m, h)); cbn; try done;
        split; [eauto | intros _; apply Hw; eauto].
  - (* CNextFrame *)
    unfold nextFrame, checkActiveObjects in E. cbn in E.
    repeat case_match; simplify_eq/=;
      by apply (wellFormed_fields (m, h)).
  - (* CSetTimestep *)
    simplify_eq/=. by apply (wellFormed_fields (m, h)).
Qed.

(** Well-formedness along a run of calls from the source. *)
Lemma exec_wellFormed (h : Heap) (calls : list Call) :
  Forall (λ c, fromSource c = true) calls →
  Forall (λ o, wellFormed (before o) ∧
               ∀ v s', outcome o = Done v s' → wellFormed s')
         (exec (PhysicsManager_new, h) calls).
Proof.
  intros Hsrc. pose proof (wellFormed_new h) as Hwf.
  revert Hwf. generalize (PhysicsManager_new, h) as s.
  induction Hsrc as [|c rest Hc _ IH]; intros s Hwf; [constructor|].
  rewrite exec_cons. constructor.
  - cbn. split; [done|]. intros v s' E. by eapply perform_wellFormed.
  - destruct (perform c s) as [v s'|u s'] eqn:E; [|constructor].
    apply IH. by eapply perform_wellFormed.
Qed.

(** X14: in every run of calls from the source, started on a newly
    constructed manager, each call starts in -- and, when it returns,
    ends in -- a state where the identity counter and the frame counter
    are within [int], the registry holds exactly the identities from 0
    up to the counter, none of them bound to a null pointer, and the
    world exists exactly when [initialized_] is set. *)
Theorem reached_states_wellFormed (h : Heap) (calls : list Call) :
  Forall (λ c, fromSource c = true) calls →
  Forall (λ o, wellFormed (before o) ∧
               ∀ v s', outcome o = Done v s' → wellFormed s')
         (exec (PhysicsManager_new, h) calls).
Proof. apply exec_wellFormed. Qed.

(** X15: in such a run [stepPhysics] never goes through a null world
    pointer: it either returns, or -- when profiling, with the frame
    counter at its maximum -- overflows that counter. *)
Theorem stepPhysics_never_null (h : Heap) (calls : list Call) :
  Forall (λ c, fromSource c = true) calls →
  Forall (λ o, ∀ el, call o = CStepPhysics el →
            (∃ s', outcome o = Done RVoid s') ∨
            (∃ s', outcome o = Undefined SignedOverflow s' ∧
                   do_profile_ (before o).1 = true ∧
                   total_frames_ (before o).1 = int_max))
         (exec (PhysicsManager_new, h) calls).
Proof.
  intros Hsrc.
  pose proof (exec_wellFormed h calls Hsrc) as Hwf.
  pose proof (exec_obs (PhysicsManager_new, h) calls) as Hobs.
  rewrite Forall_forall in *. intros [[m hh] c r] Hin el Hcall.
  specialize (Hwf _ Hin) as [(_ & _ & _ & _ & Hw) _].
  specialize (Hobs _ Hin). cbn in *. subst c r. cbn [perform].
  unfold stepPhysics.
  destruct (initialized_ m) eqn:Ei; cbn; [|eauto].
  destruct (proj1 Hw eq_refl) as [w Ew]. rewrite Ew.
  destruct (stepSimulation _ _ _ _ _) as [w' h']. cbn.
  destruct (do_profile_ m); cbn; [|eauto].
  case_bool_decide; cbn; eauto.
Qed.

(** *** Profiling statistics *)





(** *** The census *)

Lemma census_counts_from (h : Heap) (kids : list ptr) (a t na nt : Z) :
  census h kids a t = inr (na, nt) →
  nt = t + Z.of_nat (length (rigidChildren kids)) ∧
  na = a + Z.of_nat (length (activeChildren h kids)).
Proof.
  revert a t. induction kids as [|[b|] rest IH]; intros a t; cbn.
  - intros [= <- <-]. lia.
  - unfold activeChildren, rigidChildren in *. cbn.
    destruct (h !! b) as [o|] eqn:Eb; [|done].
    case_bool_decide; [done|]. intros E. apply IH in E as [-> ->].
    destruct (isActive o); cbn [length]; lia.
  - apply IH.
Qed.

Lemma census_defined_from (h : Heap) (kids : list ptr) (a t : Z) :
  Forall (λ b, is_Some (h !! b)) (rigidChildren kids) →
  t + Z.of_nat (length (rigidChildren kids)) ≤ int_max →
  ∃ na nt, census h kids a t = inr (na, nt).
Proof.
  revert a t. induction kids as [|[b|] rest IH]; intros a t; cbn.
  - eauto.
  - unfold rigidChildren in *. cbn. intros Hlive Hmax.
    inversion Hlive as [|? ? [o Eo] Hrest]; subst. rewrite Eo.
    rewrite bool_decide_false by lia. apply IH; [done | lia].
  - apply IH.
Qed.

(** X17: the census of [checkActiveObjects] counts, among the children
    of the scene node, the rigid objects and those of them the backend
    reports active, so the active count never exceeds the total; it is
    defined whenever every rigid child is a live object and their number
    fits an [int]; and however [checkActiveObjects] ends, it hands back
    the state it was given. *)
Theorem census_counts (h : Heap) (kids : list ptr) :
  (∀ na nt, census h kids 0 0 = inr (na, nt) →
     nt = Z.of_nat (length (rigidChildren kids)) ∧
     na = Z.of_nat (length (activeChildren h kids)) ∧
     0 ≤ na ≤ nt) ∧
  (Forall (λ b, is_Some (h !! b)) (rigidChildren kids) →
   Z.of_nat (length (rigidChildren kids)) ≤ int_max →
   ∃ na nt, census h kids 0 0 = inr (na, nt)) ∧
  (∀ m, state_of (checkActiveObjects kids (m, h)) = (m, h)).
Proof.
  split; [|split].
  - intros na nt E. apply census_counts_from in E as [-> ->].
    split; [lia|]. split; [lia|]. split; [lia|].
    unfold activeChildren. pose proof (filter_length_le
      (λ a, match h !! a with Some o => isActive o | None => false end)
      (rigidChildren kids)). lia.
  - intros Hlive Hmax. apply census_defined_from; [done | lia].
  - intros m. unfold checkActiveObjects. by repeat case_match.
Qed.

(** *** Identities and bodies *)

(** X18: the identity a successful [initObject] returns is accepted by
    [applyForce] and [applyImpulse] right away and leads to the object
    just registered: the call returns and that object, as the backend
    built it, receives the force or impulse. *)
Theorem registered_identity_reaches_body (s : State) (info : AssetInfo)
    (meshGroup : list CollisionMeshData) (physObject : ptr)
    (force relPos : Vector3) :
  allPrimitivesValid meshGroup = true →
  backendAccepts info meshGroup physObject s = Some true →
  nextObjectID_ s.1 ≠ int_max →
  ∃ s1 a o,
    initObject info meshGroup physObject s = Done (nextObjectID_ s.1) s1 ∧
    physObject = Some a ∧ s1.2 !! a = Some o ∧
    applyForce (nextObjectID_ s.1) force relPos s1 =
      Done tt (s1.1, <[a := bodyApplyForce force relPos o]> s1.2) ∧
    applyImpulse (nextObjectID_ s.1) force relPos s1 =
      Done tt (s1.1, <[a := bodyApplyImpulse force relPos o]> s1.2).
Proof.
  destruct s as [m h]. unfold backendAccepts, initObject. intros -> Hb Hmax.
  cbn [negb fst snd] in *.
  destruct meshGroup as [|first rest]; [done|].
  unfold deref in *. destruct physObject as [a|]; [|done].
  destruct (h !! a) as [o|] eqn:Eo; [|done].
  destruct (bWorld_ m) as [w|]; [|done].
  destruct (initializeObject _ _ _ _ _) as [[ok w'] o']. cbn in Hb.
  simplify_eq. cbn. rewrite (bool_decide_false _ Hmax), Z.add_simpl_r.
  eexists _, a, o'. split; [reflexivity|]. split; [done|].
  cbn. rewrite lookup_insert_eq. split; [done|].
  unfold applyForce, applyImpulse, subscript. cbn.
  rewrite !lookup_insert_eq. cbn. by rewrite lookup_insert_eq.
Qed.

(** X19: [initObject] does not look whether the object is registered
    already.  In a well-formed state, registering a pointer the registry
    holds under an identity succeeds like any other registration: the
    next identity is bound to the same object, the old binding stays,
    and the registry has one entry more. *)
Theorem same_object_twice (s : State) (info : AssetInfo)
    (meshGroup : list CollisionMeshData) (physObject : ptr) (old : Z) :
  wellFormed s →
  dynamicObjects_ s.1 !! old = Some physObject →
  allPrimitivesValid meshGroup = true →
  backendAccepts info meshGroup physObject s = Some true →
  nextObjectID_ s.1 ≠ int_max →
  ∃ s', initObject info meshGroup physObject s = Done (nextObjectID_ s.1) s' ∧
        old ≠ nextObjectID_ s.1 ∧
        dynamicObjects_ s'.1 !! old = Some physObject ∧
        dynamicObjects_ s'.1 !! nextObjectID_ s.1 = Some physObject ∧
        size (dynamicObjects_ s'.1) = S (size (dynamicObjects_ s.1)).
Proof.
  intros (_ & _ & Hd & _ & _) Hold Hv Hb Hmax.
  destruct (initObject_success info meshGroup physObject s Hv Hb Hmax)
    as (s' & E & Hreg & _).
  assert (old < nextObjectID_ s.1) as Hlt by (apply Hd; eauto).
  assert (dynamicObjects_ s.1 !! nextObjectID_ s.1 = None) as Hfresh.
  { apply eq_None_not_Some. rewrite Hd. lia. }
  exists s'. split; [done|]. split; [lia|]. rewrite Hreg.
  rewrite lookup_insert_ne by lia. rewrite lookup_insert_eq.
  split; [done|]. split; [done|]. by apply map_size_insert_None.
Qed.

(** *** The scene-graph walk *)

Lemma SceneTree_nested_ind (P : SceneTree → Prop) :
  (∀ kids, Forall P kids → P (SceneNode kids)) → ∀ root, P root.
Proof.
  intros Hnode. fix IH 1. intros [kids]. apply Hnode.
  induction kids as [|kid rest IHrest]; constructor; [apply IH | apply IHrest].
Qed.

Lemma debugSceneGraph_kids (kids : list SceneTree) :
  Forall (λ t, length (debugSceneGraph t) = leaves t ∧
               Forall (λ line, line = leafLine) (debugSceneGraph t) ∧
               (0 < leaves t)%nat) kids →
  length (flat_map debugSceneGraph kids) = list_sum (map leaves kids) ∧
  Forall (λ line, line = leafLine) (flat_map debugSceneGraph kids) ∧
  (kids ≠ [] → (0 < list_sum (map leaves kids))%nat).
Proof.
  induction 1 as [|kid rest (Hlen & Hall & Hpos) _ (IHlen & IHall & _)].
  - cbn. split; [done|]. split; [constructor | done].
  - cbn. rewrite length_app, Hlen, IHlen. split; [done|].
    split; [by apply Forall_app | intros _; lia].
Qed.

(** X20: [debugSceneGraph] writes one line per leaf of the scene graph
    and none for an inner node: the number of lines is the number of
    leaves, which is at least one, and every line is the leaf line. *)
Theorem debugSceneGraph_one_line_per_leaf (root : SceneTree) :
  length (debugSceneGraph root) = leaves root ∧
  Forall (λ line, line = leafLine) (debugSceneGraph root) ∧
  (0 < leaves root)%nat.
Proof.
  induction root as [kids IH] using SceneTree_nested_ind.
  destruct kids as [|kid rest].
  - cbn. split; [done|]. split; [by repeat constructor | lia].
  - destruct (debugSceneGraph_kids (kid :: rest) IH) as (Hlen & Hall & Hpos).
    split; [exact Hlen|]. split; [exact Hall | by apply Hpos].
Qed.

(** *** The registry after a run *)

(** The counter after a run that ends in a returning call is the counter
    before it plus the number of identities issued. *)
Lemma exec_counter (s : State) (calls : list Call) (o : Obs) :
  last (exec s calls) = Some o →
  nextObjectID_ (state_of (outcome o)).1 =
  nextObjectID_ s.1 + Z.of_nat (length (issued (exec s calls))).
Proof.
  revert s. induction calls as [|c rest IH]; intros s; [done|].
  rewrite exec_cons, issued_cons.
  pose proof (perform_counter c s) as Hc. cbn zeta in Hc.
  destruct (perform c s) as [v s'|u s'] eqn:E.
  - destruct (exec s' rest) as [|o' t] eqn:Et.
    + cbn. intros [= <-]. cbn.
      destruct Hc as [[-> Hn] | [-> Hn]]; cbn in Hn |- *; rewrite Hn;
        clear; lia.
    + intros Hlast. rewrite last_cons_cons in Hlast. rewrite <- Et in *.
      apply IH in Hlast. rewrite Hlast. cbn in Hc.
      destruct Hc as [[-> Hn] | [-> Hn]]; rewrite Hn; cbn [length];
        clear; lia.
  - cbn. intros [= <-]. cbn.
    destruct Hc as [[-> Hn] | [-> Hn]]; cbn in Hn |- *; rewrite Hn;
      clear; lia.
Qed.

(** X21: after a run of calls from the source on a newly constructed
    manager whose last call returns, the identity counter is the number
    of identities issued, and the registry holds exactly the identities
    issued in the run. *)
Theorem registry_holds_the_issued (h : Heap) (calls : list Call)
    (o : Obs) (v : Ret) (s' : State) :
  Forall (λ c, fromSource c = true) calls →
  last (exec (PhysicsManager_new, h) calls) = Some o →
  outcome o = Done v s' →
  let ids := issued (exec (PhysicsManager_new, h) calls) in
  nextObjectID_ s'.1 = Z.of_nat (length ids) ∧
  size (dynamicObjects_ s'.1) = length ids ∧
  ∀ objectID, is_Some (dynamicObjects_ s'.1 !! objectID) ↔ objectID ∈ ids.
Proof.
  intros Hsrc Hlast Hout. cbn zeta.
  pose proof (exec_counter _ _ _ Hlast) as Hcount.
  rewrite Hout in Hcount. cbn in Hcount.
  pose proof (exec_wellFormed h calls Hsrc) as Hwf.
  rewrite Forall_forall in Hwf.
  destruct (Hwf o) as [_ Hafter]; [by eapply last_Some_elem_of|].
  destruct (Hafter v s' Hout) as (_ & _ & Hd & _ & _).
  assert (∀ objectID, is_Some (dynamicObjects_ s'.1 !! objectID) ↔
            objectID ∈ issued (exec (PhysicsManager_new, h) calls)) as Hdom.
  { intros objectID. rewrite Hd, Hcount.
    rewrite (issued_exec_length (PhysicsManager_new, h) calls) at 2.
    rewrite elem_of_seqZ. cbn. lia. }
  split; [done|]. split; [|done].
  rewrite <- size_dom.
  assert (dom (dynamicObjects_ s'.1) =
          list_to_set (issued (exec (PhysicsManager_new, h) calls))) as ->.
  { apply set_eq. intros objectID.
    rewrite elem_of_dom, elem_of_list_to_set. apply Hdom. }
  rewrite size_list_to_set; [done|].
  rewrite (issued_exec_length (PhysicsManager_new, h) calls).
  apply NoDup_seqZ.
Qed.

End PhysicsMore.

(** ** The further statements at sample inputs *)

Section DoubleMore.
Import Double.
Local Existing Instance Double.backend.

Lemma registration_needs_world_witness :
  initObject glb [] (Some 1%positive) ready = Undefined OutOfRange ready ∧
  (∃ u, initScene glb [mesh Triangles] None fresh = Undefined u fresh) ∧
  (∃ u, initObject glb [mesh Triangles] None fresh = Undefined u fresh).
Proof.
  split.
  - apply (registration_needs_world (B := backend) ready glb [] (Some 1%positive)).
  - apply (registration_needs_world (B := backend) fresh glb [mesh Triangles] None);
      reflexivity.
Defined.

Lemma initScene_registers_nothing_witness :
  ∃ s', initScene glb [mesh Triangles] (Some 1%positive) ready = Done true s'.
Proof.
  destruct (initScene_registers_nothing (B := backend) ready glb
              [mesh Triangles] (Some 1%positive)) as [_ H].
  apply (H 1%positive (body true)
           {| gravity := down; numBodies := 0; subSteps := 0; simTime := 0%Q |});
    reflexivity.
Defined.

Lemma reached_states_wellFormed_witness :
  Forall (λ o, wellFormed (before o) ∧
               ∀ v s', outcome o = Done v s' → wellFormed s')
         (exec fresh sourceCalls).
Proof.
  apply (reached_states_wellFormed (B := backend) ∅ sourceCalls).
  repeat constructor.
Defined.

Lemma stepPhysics_never_null_witness :
  Forall (λ o, ∀ el, call o = CStepPhysics el →
            (∃ s', outcome o = Done RVoid s') ∨
            (∃ s', outcome o = Undefined SignedOverflow s' ∧
                   do_profile_ (before o).1 = true ∧
                   total_frames_ (before o).1 = int_max))
         (exec fresh sourceCalls).
Proof.
  apply (stepPhysics_never_null (B := backend) ∅ sourceCalls).
  repeat constructor.
Defined.


Lemma census_counts_witness :
  ∃ na nt, census populated.2 [Some 1%positive; None; Some 2%positive] 0 0
           = inr (na, nt) ∧ nt = 2 ∧ na = 1.
Proof.
  destruct (census_counts (B := backend) populated.2
              [Some 1%positive; None; Some 2%positive]) as (Hc & Hd & _).
  destruct Hd as (na & nt & E).
  - repeat constructor; by eexists.
  - vm_compute. discriminate.
  - exists na, nt. split; [exact E|].
    destruct (Hc na nt E) as (-> & -> & _). split; reflexivity.
Defined.

Lemma registered_identity_reaches_body_witness :
  ∃ s1 a o,
    initObject glb [mesh Triangles] (Some 1%positive) ready = Done 0 s1 ∧
    Some 1%positive = Some a ∧ s1.2 !! a = Some o ∧
    applyForce 0 down down s1 =
      Done tt (s1.1, <[a := bodyApplyForce down down o]> s1.2) ∧
    applyImpulse 0 down down s1 =
      Done tt (s1.1, <[a := bodyApplyImpulse down down o]> s1.2).
Proof.
  apply (registered_identity_reaches_body (B := backend) ready glb
           [mesh Triangles] (Some 1%positive) down down);
    first [reflexivity | discriminate].
Defined.

Lemma populated_wellFormed : wellFormed populated.
Proof.
  apply (perform_wellFormed (B := backend)
           (CInitObject glb [mesh Triangles] (Some 1%positive)) ready (RInt 0));
    [|reflexivity|reflexivity].
  apply (perform_wellFormed (B := backend)
           (CInitPhysics None down "bullet" false)
           (PhysicsManager_new,
            <[ 1%positive := body true ]> {[ 2%positive := body false ]})
           (RBool true));
    [apply wellFormed_new|reflexivity|reflexivity].
Qed.

Lemma same_object_twice_witness :
  ∃ s', initObject glb [mesh Triangles] (Some 1%positive) populated = Done 1 s' ∧
        0 ≠ 1 ∧
        dynamicObjects_ s'.1 !! 0 = Some (Some 1%positive) ∧
        dynamicObjects_ s'.1 !! 1 = Some (Some 1%positive) ∧
        size (dynamicObjects_ s'.1) = S (size (dynamicObjects_ populated.1)).
Proof.
  apply (same_object_twice (B := backend) populated glb [mesh Triangles]
           (Some 1%positive) 0);
    first [exact populated_wellFormed | reflexivity | discriminate].
Defined.

Lemma registry_holds_the_issued_witness :
  ∃ o s', last (exec fresh sourceCalls) = Some o ∧
          outcome o = Done RVoid s' ∧
          nextObjectID_ s'.1 = 2 ∧
          size (dynamicObjects_ s'.1) = 2%nat.
Proof.
  eexists _, _. split; [reflexivity|]. split; [reflexivity|].
  destruct (registry_holds_the_issued (B := backend) ∅ sourceCalls _ RVoid _
              ltac:(repeat constructor) eq_refl eq_refl) as (Hn & Hs & _).
  split; [exact Hn | exact Hs].
Defined.

End DoubleMore.
